(** * needl: the sync pipeline and the download engine

    A shallow embedding of the diff of [cmd/needl/main.go], of the
    download engine ([DownloadToFile], [downloadImpl], [backoff] and the
    header parsing helpers, in [modtime.go] after [modifyFileTime]) and
    of [readType] of [internal/scraper/archivedotorg.go], with the
    properties of the specification stated and proved, or refuted, over
    it.  Line numbers are those of these files.

    Conventions.
    - Go's [int64] and [uint64] are [Z] with the wrap-around written out
      ([int64], [uint64] below).
    - A [time.Time] is the instant it denotes, as the number of
      nanoseconds since the zero time (January 1, year 1, 00:00 UTC), so
      that [IsZero] is a test against [0], [Equal] is equality of
      instants and [Truncate] rounds down on that count, as the Go
      library documents it.
    - A Go [string] is a [string] of bytes; [<] on strings is the
      bytewise lexicographic order, which is [String.ltb]. *)

From Stdlib Require Import ZArith List String Ascii Bool Lia.
From Stdlib Require Import Sorted OrderedTypeEx Zpow_facts.
Import ListNotations.

Local Open Scope Z_scope.

(* ================================================================= *)
(** ** Machine integers *)

Definition int64 (z : Z) : Z := (z + 2 ^ 63) mod 2 ^ 64 - 2 ^ 63.
Definition uint64 (z : Z) : Z := z mod 2 ^ 64.


(* ================================================================= *)
(** ** [time.Time] *)

Module Time.

Definition t : Type := Z.

(** [time.Time{}] *)
Definition zero : t := 0.

Definition IsZero (x : t) : bool := x =? 0.

Definition Equal (a b : t) : bool := a =? b.

(** [t.Truncate(d)]: round down to a multiple of [d] since the zero
    time; [d <= 0] leaves the instant unchanged. *)
Definition Truncate (x : t) (d : Z) : t :=
  if d <=? 0 then x else x - x mod d.

Definition Minute : Z := 60 * 1000000000.

(** The seconds from the zero time to January 1, 1970 UTC, the
    library's constant [unixToInternal]. *)
Definition unixToInternal : Z := 62135596800.

(** [t.UnixNano()]: the nanoseconds since January 1, 1970 UTC as an
    [int64], which wraps around for an instant before the year 1678 or
    after 2262. *)
Definition UnixNano (x : t) : Z := int64 (x - unixToInternal * 1000000000).

(** [time.Unix(sec, nsec)] *)
Definition Unix (sec nsec : Z) : t :=
  (sec + unixToInternal) * 1000000000 + nsec.


End Time.

(* ================================================================= *)
(** ** [internal/scraper]: the remote file record *)

Module scraper.

Record RemoteFile : Type := mkRemoteFile {
  Name : string;
  SortName : string;
  URL : string;
  Timestamp : Time.t;   (* zero if unknown *)
  Size : Z              (* -1 if unknown *)
}.

End scraper.

(* ================================================================= *)
(** ** [cmd/needl/main.go]: the diff of two sorted listings *)

Module main.

Record LocalFile : Type := mkLocalFile {
  Name : string;
  SortName : string;
  Timestamp : Time.t;
  Size : Z
}.

(** The test of line 225:
    [!local.Timestamp.Equal(remote.Timestamp) || local.Size != remote.Size] *)
Definition mismatch (local : LocalFile) (remote : scraper.RemoteFile) : bool :=
  negb (Time.Equal (Timestamp local) (scraper.Timestamp remote))
  || negb (Size local =? scraper.Size remote).

(** The three lists the loops of [mainExit] build. *)
Record Diff : Type := mkDiff {
  extra : list LocalFile;
  missing : list scraper.RemoteFile;
  changed : list scraper.RemoteFile
}.

(** Lines 208-241.  The two indices [i] and [j] of the source are the
    suffixes [locals] and [remotes] still to be visited; [append] is
    [++ [_]].  When one of the suffixes is empty the first loop ends
    and the two draining loops append what is left of the other.
    [a > b] on strings is [b < a]. *)
Fixpoint diffLoop (locals : list LocalFile) (remotes : list scraper.RemoteFile)
    (extra : list LocalFile) (missing changed : list scraper.RemoteFile)
    {struct locals} : Diff :=
  let fix advanceRemote (remotes : list scraper.RemoteFile)
      (missing : list scraper.RemoteFile) {struct remotes} : Diff :=
    match locals, remotes with
    | local :: locals', remote :: remotes' =>
        if (SortName local <? scraper.SortName remote)%string then
          diffLoop locals' remotes (extra ++ [local]) missing changed
        else if (scraper.SortName remote <? SortName local)%string then
          advanceRemote remotes' (missing ++ [remote])
        else
          diffLoop locals' remotes' extra missing
            (if mismatch local remote then changed ++ [remote] else changed)
    | _, _ => mkDiff (extra ++ locals) (missing ++ remotes) changed
    end
  in advanceRemote remotes missing.

Definition diffSorted (locals : list LocalFile)
    (remotes : list scraper.RemoteFile) : Diff :=
  diffLoop locals remotes [] [] [].

(** What [sort.Slice] with the [SortName] comparison establishes. *)
Definition localsSorted : list LocalFile -> Prop :=
  StronglySorted (fun a b => (SortName a <=? SortName b)%string = true).

Definition remotesSorted : list scraper.RemoteFile -> Prop :=
  StronglySorted
    (fun a b => (scraper.SortName a <=? scraper.SortName b)%string = true).

(** The number of equal-[SortName] pairs of two listings, defined
    without reference to the merge: every local, in order, is paired
    with the first remote of the same [SortName] not yet paired. *)
Fixpoint removeFirst (k : string) (remotes : list scraper.RemoteFile)
    : option (list scraper.RemoteFile) :=
  match remotes with
  | [] => None
  | r :: remotes' =>
      if (scraper.SortName r =? k)%string then Some remotes'
      else option_map (cons r) (removeFirst k remotes')
  end.

Fixpoint pairs (locals : list LocalFile) (remotes : list scraper.RemoteFile)
    : nat :=
  match locals with
  | [] => 0%nat
  | l :: locals' =>
      match removeFirst (SortName l) remotes with
      | Some remotes' => S (pairs locals' remotes')
      | None => pairs locals' remotes
      end
  end.

(** Listings after the repository's test "multi files extras, missing,
    changed", with the sizes of the remotes known. *)
Definition threeLocals : list LocalFile :=
  [mkLocalFile "foo" "foo" (63713433600 * 1000000000) 1234;
   mkLocalFile "pool" "pool" ((63713433600 + 33 * 86400 + 3720) * 1000000000) 444;
   mkLocalFile "stand" "stand" (63776591940 * 1000000000) 3548].

Definition threeRemotes : list scraper.RemoteFile :=
  [scraper.mkRemoteFile "foo" "foo" "foo" (63713433600 * 1000000000) 1234;
   scraper.mkRemoteFile "pool" "pool" "pool"
     ((63713433600 + 274 * 86400 + 70080) * 1000000000) 444;
   scraper.mkRemoteFile "zero" "zero" "zero" (63082281600 * 1000000000) 17].

(** The files of the repository's own test table; the names there are
    in lower case, so that [SortName] is [Name]. *)
Definition stamp_2020_01_01 : Time.t := 63713433600 * 1000000000.
Definition stamp_2020_02_04_0210 : Time.t := (63713433600 + 34 * 86400 + 7800) * 1000000000.

Definition localFile (name : string) (stamp : Time.t) (size : Z) : LocalFile :=
  mkLocalFile name name stamp size.

Definition remoteFile (name : string) (stamp : Time.t) (size : Z)
    : scraper.RemoteFile :=
  scraper.mkRemoteFile name name name stamp size.

(** A local and a remote that agree on all that line 225 and the
    comparisons of [SortName] look at. *)
Definition inSync (l : LocalFile) (r : scraper.RemoteFile) : Prop :=
  SortName l = scraper.SortName r
  /\ Timestamp l = scraper.Timestamp r
  /\ Size l = scraper.Size r.

(** Sorted listings in which no [SortName] occurs twice. *)
Definition localsStrictlySorted : list LocalFile -> Prop :=
  StronglySorted (fun a b => (SortName a <? SortName b)%string = true).

Definition remotesStrictlySorted : list scraper.RemoteFile -> Prop :=
  StronglySorted
    (fun a b => (scraper.SortName a <? scraper.SortName b)%string = true).

End main.

(* ================================================================= *)
(** ** [internal/scraper/archivedotorg.go]: sniffing the listing variant *)

Module archivedotorg.

Local Open Scope string_scope.

Inductive adoSourceType : Type :=
| adostSimple
| adostFull.

Inductive error : Type :=
| FailedToScanFirstLine            (* "failed to scan first line: %w" *)
| UnrecognizedFirstLine (line : string).  (* "unrecognized first line '%s'" *)

Definition code (a : ascii) : N := N_of_ascii a.

(** *** [strings.TrimSpace]

    The white space of [unicode.IsSpace], as the bytes of its UTF-8
    encoding: the six ASCII characters, U+0085 and U+00A0 (two bytes),
    and U+1680, U+2000..U+200A, U+2028, U+2029, U+202F, U+205F and
    U+3000 (three bytes). *)
Definition isSpace1 (a : ascii) : bool :=
  let n := code a in
  ((9 <=? n) && (n <=? 13) || (n =? 32))%N.

Definition isSpace2 (a b : ascii) : bool :=
  ((code a =? 194) && ((code b =? 133) || (code b =? 160)))%N.

Definition isSpace3 (a b c : ascii) : bool :=
  let x := code a in
  let y := code b in
  let z := code c in
  ((x =? 225) && (y =? 154) && (z =? 128)
   || (x =? 226) && (y =? 128)
      && ((128 <=? z) && (z <=? 138) || (z =? 168) || (z =? 169) || (z =? 175))
   || (x =? 226) && (y =? 129) && (z =? 159)
   || (x =? 227) && (y =? 128) && (z =? 128))%N.

(** Leading white space: decode a rune, drop it when it is a space. *)
Fixpoint trimLeft (s : list ascii) : list ascii :=
  match s with
  | a :: s1 =>
      if isSpace1 a then trimLeft s1
      else
        match s1 with
        | b :: s2 =>
            if isSpace2 a b then trimLeft s2
            else
              match s2 with
              | c :: s3 => if isSpace3 a b c then trimLeft s3 else s
              | [] => s
              end
        | [] => s
        end
  | [] => s
  end.

(** Trailing white space, on the reversed bytes: the last rune is
    decoded backwards from the end. *)
Fixpoint trimLeftReversed (s : list ascii) : list ascii :=
  match s with
  | a :: s1 =>
      if isSpace1 a then trimLeftReversed s1
      else
        match s1 with
        | b :: s2 =>
            if isSpace2 b a then trimLeftReversed s2
            else
              match s2 with
              | c :: s3 => if isSpace3 c b a then trimLeftReversed s3 else s
              | [] => s
              end
        | [] => s
        end
  | [] => s
  end.

Definition TrimSpace (s : string) : string :=
  string_of_list_ascii
    (trimLeft (rev (trimLeftReversed (rev (list_ascii_of_string s))))).

(** [strings.HasPrefix(s, prefix)] *)
Definition HasPrefix (s pre : string) : bool := String.prefix pre s.

(** *** [bufio.Scanner] with the default [ScanLines] split

    Only the first [Scan] matters to [readType].  The scanner reads the
    body into a buffer that grows up to [MaxScanTokenSize] bytes and
    gives up with [ErrTooLong] when the buffer is full and holds no
    complete line.  The body is taken as read without a transport
    error, which is the case the specification describes. *)
Definition MaxScanTokenSize : Z := 65536.

Definition newline : ascii := ascii_of_nat 10.
Definition carriageReturn : ascii := ascii_of_nat 13.

(** The bytes before the first ['\n'], or all of them. *)
Fixpoint firstLine (data : string) : string :=
  match data with
  | EmptyString => EmptyString
  | String a rest =>
      if Ascii.eqb a newline then EmptyString else String a (firstLine rest)
  end.

(** [dropCR]: drop one trailing ['\r']. *)
Fixpoint dropCR (data : string) : string :=
  match data with
  | EmptyString => EmptyString
  | String a EmptyString =>
      if Ascii.eqb a carriageReturn then EmptyString else data
  | String a rest => String a (dropCR rest)
  end.

(** The state of the scanner after its first [Scan]: what [Scan]
    returned, [s.Text()] and whether [s.Err()] is non-nil. *)
Record Scanned : Type := mkScanned {
  scanOk : bool;
  Text : string;
  Err : bool
}.

Definition Scan (body : string) : Scanned :=
  match body with
  | EmptyString => mkScanned false EmptyString false
  | _ =>
      let line := firstLine body in
      if (Z.of_nat (String.length line) <? MaxScanTokenSize)%Z
      then mkScanned true (dropCR line) false
      else mkScanned false EmptyString true
  end.

(** Lines 110-125. *)
Definition readType (body : string) : adoSourceType + error :=
  let s := Scan body in
  let line := if scanOk s then TrimSpace (Text s) else EmptyString in
  if scanOk s && HasPrefix line "<!DOCTYPE html>" then inl adostFull
  else if scanOk s && HasPrefix line "<html>" then inl adostSimple
  else if Err s then inr FailedToScanFirstLine
  else inr (UnrecognizedFirstLine line).

(** Whether the first line fits the buffer of the scanner, and the
    line [readType] looks at when it does. *)
Definition firstLineFits (body : string) : Prop :=
  (Z.of_nat (String.length (firstLine body)) < MaxScanTokenSize)%Z.

Definition trimmedFirstLine (body : string) : string :=
  TrimSpace (dropCR (firstLine body)).

(** *** The specification's wording, for comparison

    The first non-empty line of the body, and the selection the
    specification describes from it. *)
Fixpoint lines (fuel : nat) (data : string) : list string :=
  match fuel with
  | O => []
  | S fuel' =>
      match data with
      | EmptyString => []
      | _ =>
          let line := firstLine data in
          line :: lines fuel'
                    (substring (S (String.length line)) (String.length data) data)
      end
  end.

Definition firstNonEmptyLine (body : string) : option string :=
  List.find (fun l => negb (String.eqb l EmptyString))
            (lines (String.length body) body).

Definition specReadType (body : string) : option adoSourceType :=
  match firstNonEmptyLine body with
  | Some line =>
      if HasPrefix line "<!DOCTYPE html>" then Some adostFull
      else if HasPrefix line "<html>" then Some adostSimple
      else None
  | None => None
  end.

Definition result (r : adoSourceType + error) : option adoSourceType :=
  match r with
  | inl t => Some t
  | inr _ => None
  end.

End archivedotorg.

(* ================================================================= *)
(** ** [internal/scraper]: the registry of scraper types *)

Module registry.

Local Open Scope string_scope.

(** The options of a scraper: [optBaseURL] is the one implementation
    of the interface [Option]. *)
Inductive Option : Type :=
| optBaseURL (v : string).

(** [ArchiveDotOrg], the one implementation of [Scraper]. *)
Record ArchiveDotOrg : Type := mkArchiveDotOrg {
  BaseURL : string;
  UserAgent : string
}.

Definition Scraper : Type := ArchiveDotOrg.

Inductive error : Type :=
| TypeNotFound                     (* "type not found" *)
| MissingBaseURL.                  (* "missing required option: BaseURL" *)

Definition Factory : Type := string -> list Option -> Scraper + error.

(** [scraperFactory], a map from type names to creation functions. *)
Definition Registry : Type := string -> option Factory.

Definition empty : Registry := fun _ => None.

(** [Register]: [scraperFactory[typ] = createFn] *)
Definition Register (typ : string) (createFn : Factory) (scraperFactory : Registry)
    : Registry :=
  fun t => if String.eqb t typ then Some createFn else scraperFactory t.

(** [Create] *)
Definition Create (scraperFactory : Registry) (typ : string)
    (opts : list Option) : Scraper + error :=
  match scraperFactory typ with
  | None => inr TypeNotFound
  | Some factory => factory typ opts
  end.

(** The creation function that [init] of archivedotorg.go registers
    (lines 22-36). *)
Definition newArchiveDotOrg : Factory :=
  fun name opts =>
    let baseURL :=
      fold_left (fun baseURL o => match o with optBaseURL v => v end)
                opts "" in
    if (String.length baseURL =? 0)%nat then inr MissingBaseURL
    else inl (mkArchiveDotOrg baseURL "").

(** [scraperFactory] once [init] has run. *)
Definition init : Registry := Register "archive.org" newArchiveDotOrg empty.

(** The value of an option. *)
Definition valueOf (o : Option) : string :=
  match o with optBaseURL v => v end.

End registry.

(* ================================================================= *)
(** ** The download engine: [DownloadToFile] and [downloadImpl] *)

Module download.

Local Open Scope list_scope.

Module DownloadOptions.
Record t : Type := mk {
  ExpectedSize : Z;                (* int64; zero if not known *)
  ExpectedLastModified : Time.t;   (* zero if not known *)
  MaxRetry : Z                     (* uint; zero retries forever *)
}.
End DownloadOptions.

Module DownloadResults.
Record t : Type := mk {
  ExpectedSize : Z;
  ActualSize : Z;
  LastModified : Time.t;
  Retries : Z
}.
End DownloadResults.

Record downloadContext : Type := mkContext {
  remoteURL : string;
  opts : DownloadOptions.t;
  bytesRead : Z;   (* int64 *)
  curRetry : Z     (* uint *)
}.

Definition setExpectedSize (dc : downloadContext) (n : Z) : downloadContext :=
  mkContext (remoteURL dc)
    (DownloadOptions.mk n
       (DownloadOptions.ExpectedLastModified (opts dc))
       (DownloadOptions.MaxRetry (opts dc)))
    (bytesRead dc) (curRetry dc).

Definition setExpectedLastModified (dc : downloadContext) (t : Time.t)
    : downloadContext :=
  mkContext (remoteURL dc)
    (DownloadOptions.mk (DownloadOptions.ExpectedSize (opts dc)) t
       (DownloadOptions.MaxRetry (opts dc)))
    (bytesRead dc) (curRetry dc).

Definition setBytesRead (dc : downloadContext) (n : Z) : downloadContext :=
  mkContext (remoteURL dc) (opts dc) n (curRetry dc).

Definition setCurRetry (dc : downloadContext) (n : Z) : downloadContext :=
  mkContext (remoteURL dc) (opts dc) (bytesRead dc) n.

(** What [io.Copy] can fail with: reading the response body, or
    writing to the file ([io.MultiWriter] stops at the first writer
    that fails; the progress writer never does). *)
Inductive copyError : Type :=
| ReadError
| WriteError.

(** The errors of [downloadImpl] and [DownloadToFile], one constructor
    per [fmt.Errorf] of the source. *)
Inductive error : Type :=
| MaxRetriesExceeded (maxRetry : Z)
| CreateRequest
| DoRequest
| SeekToStart
| Truncate
| RemainingContentLength (expected actual : Z)
| ContentLength (expected actual : Z)
| LastModified (expected actual : Time.t)
| Download (e : copyError)
| CloseResponseBody
| FinalSize (expected actual : Z)
| CreateFile
| CloseFile
| Move
| SetTime.

(** *** [backoff] and [intPow] *)

(** The loop of [intPow] at type [uint64].  An exponent below [2 ^ 64]
    is shifted down to zero in at most 64 rounds. *)
Fixpoint intPowLoop (rounds : nat) (result base exp : Z) : Z :=
  match rounds with
  | O => result
  | S rounds' =>
      let result :=
        if Z.land exp 1 =? 1 then uint64 (result * base) else result in
      let exp := Z.shiftr exp 1 in
      if exp =? 0 then result
      else intPowLoop rounds' result (uint64 (base * base)) exp
  end.

Definition intPow (base exp : Z) : Z := intPowLoop 64 1 base exp.

Definition Millisecond : Z := 1000000.

(** [Int63n n] stands for the value [rand.Int63n(n)] returns. The
    result is a [time.Duration], in nanoseconds; [/] on Go integers
    truncates, which is [Z.quot]. *)
Definition backoff (Int63n : Z -> Z) (curRetry : Z) : Z :=
  let e := uint64 curRetry in
  let e := if 10 <? e then 10 else e in
  let ms := uint64 (intPow 2 e * 500) in
  let jitter := uint64 (Int63n (Z.quot (int64 ms) 10)) in
  int64 (int64 (uint64 (ms + jitter)) * Millisecond).

(** *** Header parsing helpers *)

(** [http.Header] is [map[string][]string]. *)
Definition Header : Type := list (string * list string).

(** [h.Get(key)]: the first value of the key, or the empty string. *)
Fixpoint Get (h : Header) (key : string) : string :=
  match h with
  | [] => EmptyString
  | (k, vs) :: h' =>
      if String.eqb k key then
        match vs with
        | v :: _ => v
        | [] => EmptyString
        end
      else Get h' key
  end.

Definition digit (a : ascii) : option Z :=
  let n := Z.of_N (N_of_ascii a) in
  if (48 <=? n) && (n <=? 57) then Some (n - 48) else None.

(** The digits of [strconv.ParseUint(s, 10, 64)]: a character that is
    not a decimal digit is a syntax error. *)
Fixpoint digits (acc : Z) (s : string) : option Z :=
  match s with
  | EmptyString => Some acc
  | String a rest =>
      match digit a with
      | Some d => digits (10 * acc + d) rest
      | None => None
      end
  end.

Definition ParseUint (s : string) : option Z :=
  match s with
  | EmptyString => None
  | _ =>
      match digits 0 s with
      | Some n => if n <? 2 ^ 64 then Some n else None
      | None => None
      end
  end.

(** [strconv.ParseInt(s, 10, 64)]; [None] is a non-nil error, of
    either kind (syntax or range). *)
Definition ParseInt (s : string) : option Z :=
  match s with
  | EmptyString => None
  | String a rest =>
      let neg := Ascii.eqb a "-"%char in
      let body :=
        if Ascii.eqb a "+"%char || Ascii.eqb a "-"%char then rest else s in
      match ParseUint body with
      | None => None
      | Some un =>
          if negb neg && (2 ^ 63 <=? un) then None
          else if neg && (2 ^ 63 <? un) then None
          else Some (if neg then - un else un)
      end
  end.

(** [parseCanResume] *)
Definition parseCanResume (h : Header) : bool :=
  String.eqb (Get h "Accept-Ranges") "bytes".

(** [parseContentLength] returns -1 if the header is not present or
    cannot be parsed *)
Definition parseContentLength (h : Header) : Z :=
  let lenRaw := Get h "Content-Length" in
  if (String.length lenRaw =? 0)%nat then -1
  else
    match ParseInt lenRaw with
    | None => -1
    | Some n => n
    end.

(** *** The file being written and the server being asked *)

(** An [*os.File] opened by [os.Create]: its bytes and the offset of
    the next write.  A write past the end fills the gap with zero
    bytes. *)
Record File : Type := mkFile {
  data : list Byte.byte;
  offset : nat
}.

Definition Write (f : File) (p : list Byte.byte) : File :=
  mkFile
    (firstn (offset f) (data f ++ repeat Byte.x00 (offset f))
     ++ p ++ skipn (offset f + List.length p) (data f))
    (offset f + List.length p).

(** [f.Seek(0, io.SeekStart)] and [f.Truncate(0)] *)
Definition SeekStart (f : File) : File := mkFile (data f) 0.
Definition Truncate0 (f : File) : File := mkFile [] (offset f).

(** An [*http.Response]: the body is the bytes the server delivers
    before the stream ends, in end of file or in a read error. *)
Record Response : Type := mkResponse {
  StatusCode : Z;
  Hdr : Header;
  Body : list Byte.byte;
  BodyReadFails : bool;
  BodyCloseFails : bool
}.

Inductive RoundTrip : Type :=
| DoFails                      (* [http.DefaultClient.Do] returns an error *)
| Responds (resp : Response).

(** What happens during one call of [downloadImpl] that reaches the
    request: the answer of the server and the faults of the local
    file ([writeFailsAfter = Some k]: the disk takes [k] more bytes
    and then refuses). *)
Record Attempt : Type := mkAttempt {
  roundTrip : RoundTrip;
  seekFails : bool;
  truncateFails : bool;
  writeFailsAfter : option nat
}.

(** The request sent: the [Range] header, [bytes=<n>-], when set. *)
Record Request : Type := mkRequest {
  Range : option Z
}.

(** Everything a download acts upon: the file, the requests sent so
    far and the pauses taken so far. *)
Record World : Type := mkWorld {
  f : File;
  requests : list Request;
  sleeps : list Z
}.

(** [io.Copy(io.MultiWriter(f, pw), resp.Body)]: the bytes written,
    their number and the error. *)
Definition Copy (file : File) (resp : Response) (writeFailsAfter : option nat)
    : File * Z * option copyError :=
  match writeFailsAfter with
  | Some k =>
      if (k <? List.length (Body resp))%nat
      then (Write file (firstn k (Body resp)), Z.of_nat k, Some WriteError)
      else (Write file (Body resp), Z.of_nat (List.length (Body resp)),
            if BodyReadFails resp then Some ReadError else None)
  | None =>
      (Write file (Body resp), Z.of_nat (List.length (Body resp)),
       if BodyReadFails resp then Some ReadError else None)
  end.

Record Outcome : Type := mkOutcome {
  err : option error;
  dc : downloadContext;
  world : World
}.

(** Lines 220-237: the checks on [Content-Length], with [canResume]
    as it is after line 200. *)
Definition checkContentLength (canResume : bool) (cl : Z) (dc : downloadContext)
    : error + downloadContext :=
  let expectedSize := DownloadOptions.ExpectedSize (opts dc) in
  if 0 <? cl then
    if canResume then
      if 0 <? expectedSize then
        let expectedCl := int64 (expectedSize - bytesRead dc) in
        if negb (cl =? expectedCl)
        then inl (RemainingContentLength expectedCl cl)
        else inr dc
      else inr (setExpectedSize dc (int64 (bytesRead dc + cl)))
    else
      if (0 <? expectedSize) && negb (cl =? expectedSize)
      then inl (ContentLength expectedSize cl)
      else inr (setExpectedSize dc cl)
  else inr dc.

(** Lines 239-246: the checks on [Last-Modified]. *)
Definition checkLastModified (mt : Time.t) (dc : downloadContext)
    : error + downloadContext :=
  let expected := DownloadOptions.ExpectedLastModified (opts dc) in
  if negb (Time.IsZero mt) then
    if Time.IsZero expected then inr (setExpectedLastModified dc mt)
    else if negb (Time.Equal mt expected) then inl (LastModified expected mt)
    else inr dc
  else inr dc.

(** How one pass through the body of [downloadImpl] ends: in a
    [return fmt.Errorf(...)], in a [return fnRetryOrErr(...)], or in
    the final [return nil]. *)
Inductive Step : Type :=
| Fatal (e : error) (dc : downloadContext) (w : World)
| Retry (e : error) (dc : downloadContext) (w : World) (canResume : bool)
| Done (dc : downloadContext) (w : World).

Definition setFile (w : World) (file : File) : World :=
  mkWorld file (requests w) (sleeps w).

Definition maxRetriesReached (dc : downloadContext) : bool :=
  (0 <? DownloadOptions.MaxRetry (opts dc))
  && (DownloadOptions.MaxRetry (opts dc) <=? curRetry dc).

Section Engine.

(** [time.Parse("Mon, 02 Jan 2006 15:04:05 GMT", s)], [None] for an
    error. *)
Variable time_Parse : string -> option Time.t.

(** Whether [http.NewRequest("GET", url, nil)] accepts the URL. *)
Variable NewRequest_ok : string -> bool.

(** The value [rand.Int63n(n)] returns. *)
Variable Int63n : Z -> Z.

(** [parseLastModifiedMinute] returns zero if the header is not
    present or cannot be parsed *)
Definition parseLastModifiedMinute (h : Header) : Time.t :=
  let modRaw := Get h "Last-Modified" in
  if (String.length modRaw =? 0)%nat then Time.zero
  else
    match time_Parse modRaw with
    | None => Time.zero
    | Some t => Time.Truncate t Time.Minute
    end.

(** Lines 143-164 and 189-269: from the request to the end of the
    body, for a call that passed the test of line 139. *)
Definition attempt (a : Attempt) (dc : downloadContext) (w : World)
    (canResume : bool) : Step :=
  let req :=
    if canResume && (0 <? bytesRead dc)
    then mkRequest (Some (bytesRead dc)) else mkRequest None in
  let w := mkWorld (f w) (requests w ++ [req]) (sleeps w) in
  match roundTrip a with
  | DoFails => Retry DoRequest dc w canResume
  | Responds resp =>
      let canResume :=
        if negb canResume then parseCanResume (Hdr resp) else canResume in
      let dropped := negb canResume && (0 <? bytesRead dc) in
      if dropped && seekFails a then Fatal SeekToStart dc w
      else if dropped && truncateFails a
      then Fatal Truncate dc (setFile w (SeekStart (f w)))
      else
        let w :=
          if dropped then setFile w (Truncate0 (SeekStart (f w))) else w in
        let dc := if dropped then setBytesRead dc 0 else dc in
        match checkContentLength canResume (parseContentLength (Hdr resp)) dc with
        | inl e => Fatal e dc w
        | inr dc =>
            match checkLastModified (parseLastModifiedMinute (Hdr resp)) dc with
            | inl e => Fatal e dc w
            | inr dc =>
                let '(file, n, cerr) := Copy (f w) resp (writeFailsAfter a) in
                let w := setFile w file in
                let dc := setBytesRead dc (int64 (bytesRead dc + n)) in
                match cerr with
                | Some ce => Retry (Download ce) dc w canResume
                | None =>
                    if BodyCloseFails resp then Fatal CloseResponseBody dc w
                    else
                      let expectedSize :=
                        DownloadOptions.ExpectedSize (opts dc) in
                      if (0 <? expectedSize)
                         && negb (bytesRead dc =? expectedSize)
                      then Fatal (FinalSize expectedSize (bytesRead dc)) dc w
                      else Done dc w
                end
            end
        end
  end.

(** Lines 166-187, with the recursive call as [again].  [curRetry]
    is a [uint], taken at 64 bits. *)
Definition fnRetryOrErr
    (again : downloadContext -> World -> bool -> option Outcome)
    (e : error) (dc : downloadContext) (w : World) (canResume : bool)
    : option Outcome :=
  let dc := setCurRetry dc (uint64 (curRetry dc + 1)) in
  if maxRetriesReached dc then Some (mkOutcome (Some e) dc w)
  else
    let d := backoff Int63n (curRetry dc) in
    again dc (mkWorld (f w) (requests w) (sleeps w ++ [d])) canResume.

(** [downloadImpl].  The [script] lists what the successive requests
    meet; [None] means that the script is too short to tell how the
    download ends. *)
Fixpoint downloadImpl (script : list Attempt) (dc : downloadContext)
    (w : World) (canResume : bool) {struct script} : option Outcome :=
  if maxRetriesReached dc
  then Some (mkOutcome
               (Some (MaxRetriesExceeded (DownloadOptions.MaxRetry (opts dc))))
               dc w)
  else if negb (NewRequest_ok (remoteURL dc))
  then Some (mkOutcome (Some CreateRequest) dc w)
  else
    match script with
    | [] => None
    | a :: script' =>
        match attempt a dc w canResume with
        | Fatal e dc w => Some (mkOutcome (Some e) dc w)
        | Retry e dc w canResume =>
            fnRetryOrErr (downloadImpl script') e dc w canResume
        | Done dc w => Some (mkOutcome None dc w)
        end
    end.

(** *** [DownloadToFile] *)

Record FileEntry : Type := mkFileEntry {
  content : list Byte.byte;
  modTime : Time.t
}.

(** The files of the disk, by path. *)
Definition Disk : Type := string -> option FileEntry.

Definition writeAt (disk : Disk) (path : string) (e : option FileEntry)
    : Disk :=
  fun p => if String.eqb p path then e else disk p.

(** The faults of the local file system during one call, and the
    time a file that is written gets. *)
Record Faults : Type := mkFaults {
  createFails : bool;
  closeFails : bool;
  moveFails : bool;
  setTimeFails : bool;
  now : Time.t
}.

(** [modifyFileTime]: [os.Chtimes(path, time.Time{}, stamp)], which
    leaves a time unchanged where the argument is the zero time and
    hands any other to the system as [stamp.UnixNano()], so that the
    file gets the time [time.Unix(0, stamp.UnixNano())]. *)
Definition modifyFileTime (disk : Disk) (path : string) (stamp : Time.t)
    : Disk :=
  match disk path with
  | Some e =>
      if Time.IsZero stamp then disk
      else writeAt disk path
             (Some (mkFileEntry (content e)
                      (Time.Unix 0 (Time.UnixNano stamp))))
  | None => disk
  end.

(** [atomic.ReplaceFile(source, destination)] *)
Definition ReplaceFile (disk : Disk) (source destination : string) : Disk :=
  writeAt (writeAt disk destination (disk source)) source None.

Definition results (dc : downloadContext) : DownloadResults.t :=
  DownloadResults.mk
    (DownloadOptions.ExpectedSize (opts dc))
    (bytesRead dc)
    (DownloadOptions.ExpectedLastModified (opts dc))
    (curRetry dc).

Record Returned : Type := mkReturned {
  res : DownloadResults.t;
  failure : option error;
  disk : Disk;
  trace : World
}.

Definition DownloadToFile (script : list Attempt) (faults : Faults)
    (disk : Disk) (remoteURL localPath : string) (opts : DownloadOptions.t)
    : option Returned :=
  let res :=
    DownloadResults.mk (DownloadOptions.ExpectedSize opts) 0
      (DownloadOptions.ExpectedLastModified opts) 0 in
  let tmpPath := (localPath ++ ".tmp")%string in
  let w := mkWorld (mkFile [] 0) [] [] in
  if createFails faults then Some (mkReturned res (Some CreateFile) disk w)
  else
    let dc := mkContext remoteURL opts 0 0 in
    match downloadImpl script dc w false with
    | None => None
    | Some out =>
        let res := results (download.dc out) in
        let disk :=
          writeAt disk tmpPath
            (Some (mkFileEntry (data (f (world out))) (now faults))) in
        match err out with
        | Some e => Some (mkReturned res (Some e) disk (world out))
        | None =>
            if closeFails faults
            then Some (mkReturned res (Some CloseFile) disk (world out))
            else if moveFails faults
            then Some (mkReturned res (Some Move) disk (world out))
            else
              let disk := ReplaceFile disk tmpPath localPath in
              if setTimeFails faults
              then Some (mkReturned res (Some SetTime) disk (world out))
              else
                Some (mkReturned res None
                        (modifyFileTime disk localPath
                           (DownloadResults.LastModified res))
                        (world out))
        end
    end.

End Engine.

(** The errors that are handed to [fnRetryOrErr] (lines 192 and
    256). *)
Definition retried (e : error) : bool :=
  match e with
  | DoRequest | Download _ => true
  | _ => false
  end.

(** Each of the first [n] attempts of the script fails with a
    retryable error, in the states the download goes through: the
    attempt ends in [fnRetryOrErr], which counts the retry and pauses
    before the next request. *)
Fixpoint allRetryable (time_Parse : string -> option Time.t)
    (Int63n : Z -> Z) (n : nat) (script : list Attempt)
    (dc : downloadContext) (w : World) (canResume : bool) : Prop :=
  match n with
  | O => True
  | S n' =>
      match script with
      | [] => False
      | a :: script' =>
          match attempt time_Parse a dc w canResume with
          | Retry _ dc' w' canResume' =>
              let dc' := setCurRetry dc' (uint64 (curRetry dc' + 1)) in
              allRetryable time_Parse Int63n n' script' dc'
                (mkWorld (f w') (requests w')
                   (sleeps w' ++ [backoff Int63n (curRetry dc')]))
                canResume'
          | _ => False
          end
      end
  end.

(** *** Relations between the states before and after an attempt *)

(** The retry count, the retry bound and the URL are the same. *)
Definition sameBudget (dc dc' : downloadContext) : Prop :=
  curRetry dc' = curRetry dc
  /\ DownloadOptions.MaxRetry (opts dc') = DownloadOptions.MaxRetry (opts dc)
  /\ remoteURL dc' = remoteURL dc.

(** The world after the request of an attempt has been sent. *)
Definition afterRequest (w w' : World) : Prop :=
  sleeps w' = sleeps w
  /\ List.length (requests w') = S (List.length (requests w)).

(** [bytesRead] is the number of bytes of the file, and the next
    write goes to its end. *)
Definition consistent (dc : downloadContext) (w : World) : Prop :=
  offset (f w) = List.length (data (f w))
  /\ bytesRead dc = Z.of_nat (List.length (data (f w))).

(** A known [ExpectedSize] stays what it is. *)
Definition keepsExpectedSize (dc dc' : downloadContext) : Prop :=
  0 < DownloadOptions.ExpectedSize (opts dc) ->
  DownloadOptions.ExpectedSize (opts dc')
  = DownloadOptions.ExpectedSize (opts dc).

(** The number of body bytes an attempt delivers. *)
Definition bodyBytes (a : Attempt) : Z :=
  match roundTrip a with
  | DoFails => 0
  | Responds resp => Z.of_nat (List.length (Body resp))
  end.

(** The total number of body bytes a script delivers. *)
Definition scriptBytes (script : list Attempt) : Z :=
  fold_right (fun a n => bodyBytes a + n) 0 script.

(** Some concrete servers, for the examples. *)
Definition noFaults (rt : RoundTrip) : Attempt := mkAttempt rt false false None.

Definition bytes (n : nat) : list Byte.byte := repeat Byte.x61 n.

Definition contentLength (v : string) : Header := [("Content-Length"%string, [v])].

Definition answer (status : Z) (h : Header) (n : nat) : Response :=
  mkResponse status h (bytes n) false false.

Definition quiet : Faults := mkFaults false false false false 1700000000.

Definition emptyDisk : Disk := fun _ => None.

Definition neverParses (s : string) : option Time.t := None.

Definition anyURL (s : string) : bool := true.

Definition noJitter (n : Z) : Z := 0.

(** A server that breaks the connection after four of nine bytes and
    then serves the other five to a range request. *)
Definition resumedDownload : list Attempt :=
  [noFaults (Responds (mkResponse 200
               (("Accept-Ranges"%string, ["bytes"%string]) :: contentLength "9")
               (bytes 4) true false));
   noFaults (Responds (answer 206 (contentLength "5") 5))].

(** *** More relations between states, and shapes of scripts *)

(** A known [ExpectedLastModified] stays what it is. *)
Definition keepsLastModified (dc dc' : downloadContext) : Prop :=
  Time.IsZero (DownloadOptions.ExpectedLastModified (opts dc)) = false ->
  DownloadOptions.ExpectedLastModified (opts dc')
  = DownloadOptions.ExpectedLastModified (opts dc).

(** No answer of the script carries [Accept-Ranges: bytes]. *)
Definition neverAdvertisesRanges (script : list Attempt) : Prop :=
  Forall (fun a =>
            match roundTrip a with
            | DoFails => True
            | Responds resp => parseCanResume (Hdr resp) = false
            end) script.

(** The first answer of the script carries [Accept-Ranges: bytes]. *)
Fixpoint firstAnswerAdvertisesRanges (script : list Attempt) : Prop :=
  match script with
  | [] => True
  | a :: script' =>
      match roundTrip a with
      | DoFails => firstAnswerAdvertisesRanges script'
      | Responds resp => parseCanResume (Hdr resp) = true
      end
  end.

(** The bytes of its answer that an attempt gets into the file. *)
Definition stored (a : Attempt) : list Byte.byte :=
  match roundTrip a with
  | DoFails => []
  | Responds resp =>
      match writeFailsAfter a with
      | Some k => firstn k (Body resp)
      | None => Body resp
      end
  end.

(** A server without ranges that breaks the connection after four of
    nine bytes and then serves the nine. *)
Definition restartedDownload : list Attempt :=
  [noFaults (Responds (mkResponse 200 (contentLength "9") (bytes 4) true false));
   noFaults (Responds (answer 200 (contentLength "9") 9))].

(** The bytes an attempt receives. *)
Definition bodyOf (a : Attempt) : list Byte.byte :=
  match roundTrip a with
  | DoFails => []
  | Responds resp => Body resp
  end.

(** *** How an attempt ends, by what it meets *)

(** [canResume] after lines 198-200. *)
Definition resumes (canResume : bool) (resp : Response) : bool :=
  canResume || parseCanResume (Hdr resp).

(** The test of line 202, [!canResume && dc.bytesRead > 0]. *)
Definition dropsData (canResume : bool) (resp : Response)
    (dc : downloadContext) : bool :=
  negb (resumes canResume resp) && (0 <? bytesRead dc).

(** The seek of line 204 or the truncate of line 207 fails. *)
Definition localFileError (a : Attempt) (canResume : bool) (resp : Response)
    (dc : downloadContext) : bool :=
  dropsData canResume resp dc && (seekFails a || truncateFails a).

(** [dc.bytesRead] after line 210. *)
Definition bytesKept (canResume : bool) (resp : Response)
    (dc : downloadContext) : Z :=
  if dropsData canResume resp dc then 0 else bytesRead dc.

(** What lines 224-225 and 232 compare [Content-Length] with. *)
Definition lengthExpected (canResume : bool) (resp : Response)
    (dc : downloadContext) : Z :=
  if resumes canResume resp
  then int64 (DownloadOptions.ExpectedSize (opts dc) - bytesRead dc)
  else DownloadOptions.ExpectedSize (opts dc).

(** [Content-Length] is positive, [ExpectedSize] is positive and the
    two disagree (lines 222-234). *)
Definition lengthMismatch (canResume : bool) (resp : Response)
    (dc : downloadContext) : bool :=
  (0 <? parseContentLength (Hdr resp))
  && (0 <? DownloadOptions.ExpectedSize (opts dc))
  && negb (parseContentLength (Hdr resp) =? lengthExpected canResume resp dc).

(** [dc.opts.ExpectedSize] after lines 220-237, when they return no
    error. *)
Definition sizeAfterHeaders (canResume : bool) (resp : Response)
    (dc : downloadContext) : Z :=
  if (0 <? parseContentLength (Hdr resp))
     && negb (0 <? DownloadOptions.ExpectedSize (opts dc))
  then
    if resumes canResume resp
    then int64 (bytesRead dc + parseContentLength (Hdr resp))
    else parseContentLength (Hdr resp)
  else DownloadOptions.ExpectedSize (opts dc).

(** [Last-Modified] is given, [ExpectedLastModified] is not zero and
    the two disagree (lines 239-246). *)
Definition timeMismatch (time_Parse : string -> option Time.t)
    (resp : Response) (dc : downloadContext) : bool :=
  negb (Time.IsZero (parseLastModifiedMinute time_Parse (Hdr resp)))
  && negb (Time.IsZero (DownloadOptions.ExpectedLastModified (opts dc)))
  && negb (Time.Equal (parseLastModifiedMinute time_Parse (Hdr resp))
             (DownloadOptions.ExpectedLastModified (opts dc))).

(** [io.Copy] of line 250 returns an error: the body cannot be read to
    its end, or the file refuses a byte of it. *)
Definition copyBreaks (a : Attempt) (resp : Response) : Prop :=
  BodyReadFails resp = true
  \/ exists k, writeFailsAfter a = Some k
               /\ (k < List.length (Body resp))%nat.

(** [io.Copy] of line 250 returns no error. *)
Definition copyCompletes (a : Attempt) (resp : Response) : Prop :=
  BodyReadFails resp = false
  /\ forall k, writeFailsAfter a = Some k ->
               (List.length (Body resp) <= k)%nat.

(** [dc.bytesRead] after line 251, for a copy of the whole body. *)
Definition bytesAfterCopy (canResume : bool) (resp : Response)
    (dc : downloadContext) : Z :=
  int64 (bytesKept canResume resp dc + Z.of_nat (List.length (Body resp))).

(** The test of line 265. *)
Definition finalSizeMismatch (canResume : bool) (resp : Response)
    (dc : downloadContext) : bool :=
  (0 <? sizeAfterHeaders canResume resp dc)
  && negb (bytesAfterCopy canResume resp dc
           =? sizeAfterHeaders canResume resp dc).

(** A call that returns the error [e] without a retry: the retry
    count and the pauses are those of its start, and it has sent one
    request. *)
Definition returnedAtOnce (result : option Outcome) (e : error)
    (start : downloadContext) (w : World) : Prop :=
  exists out,
    result = Some out
    /\ err out = Some e
    /\ curRetry (dc out) = curRetry start
    /\ sleeps (world out) = sleeps w
    /\ List.length (requests (world out)) = S (List.length (requests w)).




(** Whether the call got as far as replacing the final file. *)
Definition moved (failure : option error) : bool :=
  match failure with
  | None | Some SetTime => true
  | Some _ => false
  end.

(** A disk with one file. *)
Definition oneFile (path : string) (e : FileEntry) : Disk :=
  writeAt emptyDisk path (Some e).

(** The request an attempt sends (lines 148-164). *)
Definition requestOf (dc : downloadContext) (canResume : bool) : Request :=
  if canResume && (0 <? bytesRead dc)
  then mkRequest (Some (bytesRead dc)) else mkRequest None.

End download.

(* ================================================================= *)
(** * Properties of the diff *)

Module DiffFacts.

Import main.

Local Open Scope string_scope.

(** ** The order of [SortName]s *)

Lemma ltb_lt (a b : string) : (a <? b) = true <-> String_as_OT.lt a b.
Proof.
  unfold String.ltb. rewrite <- String_as_OT.cmp_lt. unfold String_as_OT.cmp.
  destruct (String.compare a b); split; congruence.
Qed.

Lemma ltb_irrefl (a : string) : (a <? a) = false.
Proof.
  unfold String.ltb.
  assert (H : String.compare a a = Eq) by (apply String_as_OT.cmp_eq; reflexivity).
  rewrite H. reflexivity.
Qed.

Lemma leb_cases (a b : string) :
  (a <=? b) = true -> (a <? b) = true \/ a = b.
Proof.
  unfold String.leb, String.ltb.
  destruct (String.compare a b) eqn:E; intros H.
  - right. apply String.compare_eq_iff. exact E.
  - left. reflexivity.
  - discriminate.
Qed.

Lemma ltb_trans (a b c : string) :
  (a <? b) = true -> (b <? c) = true -> (a <? c) = true.
Proof.
  rewrite !ltb_lt. apply String_as_OT.lt_trans.
Qed.

Lemma ltb_leb_trans (a b c : string) :
  (a <? b) = true -> (b <=? c) = true -> (a <? c) = true.
Proof.
  intros Hab Hbc. destruct (leb_cases _ _ Hbc) as [H | H].
  - eapply ltb_trans; eassumption.
  - subst. assumption.
Qed.

Lemma ltb_neq (a b : string) : (a <? b) = true -> (b =? a) = false.
Proof.
  intros H. apply String.eqb_neq. intros ->.
  rewrite ltb_irrefl in H. discriminate.
Qed.

Lemma not_ltb_eq (a b : string) :
  (a <? b) = false -> (b <? a) = false -> a = b.
Proof.
  unfold String.ltb.
  pose proof (String.compare_antisym a b) as HA.
  destruct (String.compare a b) eqn:E;
    destruct (String.compare b a) eqn:E'; simpl in *; intros H1 H2;
    try discriminate.
  apply String.compare_eq_iff. exact E.
Qed.

(** ** The loop, one round at a time *)

Lemma diffLoop_nil_l remotes e m c :
  diffLoop [] remotes e m c = mkDiff (e ++ []) (m ++ remotes) c.
Proof. destruct remotes; reflexivity. Qed.

Lemma diffLoop_nil_r locals e m c :
  diffLoop locals [] e m c = mkDiff (e ++ locals) (m ++ []) c.
Proof. destruct locals; reflexivity. Qed.

Lemma diffLoop_cons l locals r remotes e m c :
  diffLoop (l :: locals) (r :: remotes) e m c =
  if SortName l <? scraper.SortName r then
    diffLoop locals (r :: remotes) (e ++ [l]) m c
  else if scraper.SortName r <? SortName l then
    diffLoop (l :: locals) remotes e (m ++ [r]) c
  else
    diffLoop locals remotes e m (if mismatch l r then c ++ [r] else c).
Proof. reflexivity. Qed.

(** ** Counting the pairs *)

Local Open Scope nat_scope.
Local Open Scope list_scope.

Lemma pairs_nil_r locals : pairs locals [] = 0.
Proof. induction locals; simpl; auto. Qed.

Lemma removeFirst_none k remotes :
  Forall (fun r => (k <? scraper.SortName r)%string = true) remotes ->
  removeFirst k remotes = None.
Proof.
  induction 1 as [| r remotes Hr _ IH]; simpl.
  - reflexivity.
  - rewrite (ltb_neq _ _ Hr), IH. reflexivity.
Qed.

Lemma pairs_skip_remote r locals :
  Forall (fun l => (scraper.SortName r <? SortName l)%string = true) locals ->
  forall remotes, pairs locals (r :: remotes) = pairs locals remotes.
Proof.
  induction 1 as [| l locals Hl _ IH]; intros remotes; simpl.
  - reflexivity.
  - rewrite String.eqb_sym, (ltb_neq _ _ Hl).
    destruct (removeFirst (SortName l) remotes) as [remotes' |]; simpl.
    + rewrite IH. reflexivity.
    + apply IH.
Qed.

Lemma sorted_above_locals r l locals :
  localsSorted (l :: locals) ->
  (scraper.SortName r <? SortName l)%string = true ->
  Forall (fun l' => (scraper.SortName r <? SortName l')%string = true)
         (l :: locals).
Proof.
  intros Hs Hlt. inversion Hs as [| ? ? _ Hall]; subst.
  constructor; [assumption |].
  eapply Forall_impl; [| exact Hall].
  intros l' Hle. eapply ltb_leb_trans; eassumption.
Qed.

Lemma sorted_above_remotes l r remotes :
  remotesSorted (r :: remotes) ->
  (SortName l <? scraper.SortName r)%string = true ->
  Forall (fun r' => (SortName l <? scraper.SortName r')%string = true)
         (r :: remotes).
Proof.
  intros Hs Hlt. inversion Hs as [| ? ? _ Hall]; subst.
  constructor; [assumption |].
  eapply Forall_impl; [| exact Hall].
  intros r' Hle. eapply ltb_leb_trans; eassumption.
Qed.

Lemma diffLoop_counts locals :
  localsSorted locals ->
  forall remotes, remotesSorted remotes ->
  forall e m c,
    List.length (extra (diffLoop locals remotes e m c)) + pairs locals remotes
    = List.length e + List.length locals
    /\ List.length (missing (diffLoop locals remotes e m c)) + pairs locals remotes
       = List.length m + List.length remotes.
Proof.
  induction locals as [| l locals IHl]; intros Hl.
  - intros remotes _ e m c. rewrite diffLoop_nil_l. simpl.
    rewrite !length_app. simpl. lia.
  - assert (Hl' : localsSorted locals) by (inversion Hl; assumption).
    induction remotes as [| r remotes IHr]; intros Hr e m c.
    + rewrite diffLoop_nil_r, pairs_nil_r. simpl extra. simpl missing.
      rewrite !length_app. simpl. lia.
    + assert (Hr' : remotesSorted remotes) by (inversion Hr; assumption).
      rewrite diffLoop_cons.
      destruct (SortName l <? scraper.SortName r)%string eqn:Hlt.
      * (* the local is extra *)
        pose proof (sorted_above_remotes _ _ _ Hr Hlt) as Habove.
        change (pairs (l :: locals) (r :: remotes))
          with (match removeFirst (SortName l) (r :: remotes) with
                | Some remotes' => S (pairs locals remotes')
                | None => pairs locals (r :: remotes)
                end).
        rewrite (removeFirst_none _ _ Habove).
        destruct (IHl Hl' (r :: remotes) Hr (e ++ [l]) m c) as [He Hm].
        rewrite length_app in He. simpl in *. lia.
      * destruct (scraper.SortName r <? SortName l)%string eqn:Hgt.
        -- (* the remote is missing *)
           rewrite (pairs_skip_remote r (l :: locals)
                      (sorted_above_locals _ _ _ Hl Hgt)).
           destruct (IHr Hr' e (m ++ [r]) c) as [He Hm].
           rewrite length_app in Hm. simpl in *. lia.
        -- (* a pair *)
           pose proof (not_ltb_eq _ _ Hlt Hgt) as Heq.
           simpl pairs. rewrite <- Heq, String.eqb_refl.
           destruct (IHl Hl' remotes Hr' e m
                       (if mismatch l r then c ++ [r] else c)) as [He Hm].
           simpl. lia.
Qed.

(** Whatever is appended to [changed] comes from a pair of equal
    [SortName] that [mismatch] flags. *)
Lemma diffLoop_changed (Q : scraper.RemoteFile -> Prop) locals :
  forall remotes e m c,
    Forall Q c ->
    (forall l r, In l locals -> In r remotes ->
                 SortName l = scraper.SortName r ->
                 mismatch l r = true -> Q r) ->
    Forall Q (changed (diffLoop locals remotes e m c)).
Proof.
  induction locals as [| l locals IHl].
  - intros remotes e m c Hc _. rewrite diffLoop_nil_l. exact Hc.
  - induction remotes as [| r remotes IHr]; intros e m c Hc HQ.
    + rewrite diffLoop_nil_r. exact Hc.
    + rewrite diffLoop_cons.
      destruct (SortName l <? scraper.SortName r)%string eqn:Hlt.
      * apply IHl; [assumption |].
        intros l' r' Hl' Hr'. apply HQ; [right |]; assumption.
      * destruct (scraper.SortName r <? SortName l)%string eqn:Hgt.
        -- apply IHr; [assumption |].
           intros l' r' Hl' Hr'. apply HQ; [| right]; assumption.
        -- apply IHl.
           ++ destruct (mismatch l r) eqn:Hmm; [| assumption].
              apply Forall_app. split; [assumption |].
              constructor; [| constructor].
              apply (HQ l r); [left | left | |]; auto.
              apply not_ltb_eq; assumption.
           ++ intros l' r' Hl' Hr'. apply HQ; right; assumption.
Qed.

(** ** The claims about the diff *)

(** C8. For listings sorted ascending by [SortName], the outputs of
    the diff partition both inputs: the length of [extra] plus the
    number of equal-[SortName] pairs is the number of locals, the
    length of [missing] plus the number of pairs is the number of
    remotes, and every element of [changed] is a remote of the input
    that has a local of the same [SortName] (which the comparison of
    line 225 flags). *)
Theorem diff_partitions_both_listings locals remotes :
  localsSorted locals -> remotesSorted remotes ->
  List.length (extra (diffSorted locals remotes)) + pairs locals remotes
  = List.length locals
  /\ List.length (missing (diffSorted locals remotes)) + pairs locals remotes
     = List.length remotes
  /\ Forall (fun r =>
               In r remotes
               /\ exists l, In l locals
                            /\ SortName l = scraper.SortName r
                            /\ mismatch l r = true)
            (changed (diffSorted locals remotes)).
Proof.
  intros Hl Hr. unfold diffSorted.
  destruct (diffLoop_counts locals Hl remotes Hr [] [] []) as [He Hm].
  split; [exact He | split; [exact Hm |]].
  apply diffLoop_changed; [constructor |].
  intros l r Hinl Hinr Heq Hmm. split; [assumption |].
  exists l. auto.
Qed.

Lemma diff_partitions_both_listings_witness :
  let locals := [localFile "foo" stamp_2020_01_01 1234;
                 localFile "pool" stamp_2020_01_01 444;
                 localFile "stand" stamp_2020_01_01 3548] in
  let remotes := [remoteFile "foo" stamp_2020_01_01 1234;
                  remoteFile "pool" stamp_2020_02_04_0210 444;
                  remoteFile "zero" stamp_2020_01_01 17] in
  List.length (extra (diffSorted locals remotes)) + pairs locals remotes
  = List.length locals
  /\ List.length (missing (diffSorted locals remotes)) + pairs locals remotes
     = List.length remotes
  /\ Forall (fun r =>
               In r remotes
               /\ exists l, In l locals
                            /\ SortName l = scraper.SortName r
                            /\ mismatch l r = true)
            (changed (diffSorted locals remotes)).
Proof.
  intros locals remotes.
  apply (diff_partitions_both_listings locals remotes);
    repeat constructor.
Defined.

(** C1, on the input of the repository's test "single file no remote
    size": line 225 compares the sizes without looking for the -1
    sentinel, and the remote is classified as changed. *)
Theorem unknown_remote_size_is_classified_changed :
  let local := localFile "foo" stamp_2020_01_01 1234 in
  let remote := remoteFile "foo" stamp_2020_01_01 (-1) in
  Time.Equal (Timestamp local) (scraper.Timestamp remote) = true
  /\ diffSorted [local] [remote] = mkDiff [] [] [remote].
Proof. split; reflexivity. Qed.

End DiffFacts.

(* ================================================================= *)
(** * Properties of the listing parser *)

Module ScraperFacts.

Import archivedotorg.

Local Open Scope string_scope.

Lemma prefix_cons c p a s :
  String.prefix (String c p) (String a s) = Ascii.eqb c a && String.prefix p s.
Proof.
  cbn [String.prefix].
  destruct (ascii_dec c a) as [-> | Hne].
  - rewrite Ascii.eqb_refl. reflexivity.
  - apply Ascii.eqb_neq in Hne. rewrite Hne. reflexivity.
Qed.

Lemma prefix_nil c p : String.prefix (String c p) "" = false.
Proof. reflexivity. Qed.

(** No line begins with both marks. *)
Lemma marks_exclusive line :
  HasPrefix line "<!DOCTYPE html>" = true -> HasPrefix line "<html>" = false.
Proof.
  unfold HasPrefix.
  destruct line as [| a [| b rest]].
  - reflexivity.
  - rewrite !prefix_cons, !prefix_nil, !andb_false_r. reflexivity.
  - rewrite !prefix_cons.
    destruct (Ascii.eqb "<" a); [| reflexivity].
    destruct (Ascii.eqb_spec "!" b) as [<- | _]; [| discriminate].
    intros _. reflexivity.
Qed.

Lemma readType_unfold body :
  readType body =
  match body with
  | EmptyString => inr (UnrecognizedFirstLine EmptyString)
  | _ =>
      if (Z.of_nat (String.length (firstLine body)) <? MaxScanTokenSize)%Z
      then
        if HasPrefix (trimmedFirstLine body) "<!DOCTYPE html>" then inl adostFull
        else if HasPrefix (trimmedFirstLine body) "<html>" then inl adostSimple
        else inr (UnrecognizedFirstLine (trimmedFirstLine body))
      else inr FailedToScanFirstLine
  end.
Proof.
  unfold readType, Scan, trimmedFirstLine.
  destruct body as [| a rest]; [reflexivity |].
  destruct (Z.of_nat (String.length (firstLine (String a rest)))
            <? MaxScanTokenSize)%Z;
    reflexivity.
Qed.

(** C9 as the specification states it fails: on a body whose first
    line is empty and whose second line is [<html>] the parser
    reports a parse error, while the first non-empty line selects the
    simple variant. *)
Lemma first_non_empty_line_is_not_read :
  let body := String newline "<html>" in
  firstNonEmptyLine body = Some "<html>"
  /\ specReadType body = Some adostSimple
  /\ readType body = inr (UnrecognizedFirstLine "").
Proof. repeat split; reflexivity. Qed.

(** C9, amended. The parser selects the variant from the first line
    of the body (up to the first line feed, without a trailing
    carriage return, white space trimmed at both ends): it answers
    the full variant exactly when that line fits the buffer of the
    scanner and begins with [<!DOCTYPE html>], the simple variant
    exactly when it fits and begins with [<html>], and an error in
    every other case; an empty body and an empty first line are such
    cases. *)
Theorem readType_selects_by_first_line body :
  (result (readType body) = Some adostFull
   <-> firstLineFits body
       /\ HasPrefix (trimmedFirstLine body) "<!DOCTYPE html>" = true)
  /\ (result (readType body) = Some adostSimple
      <-> firstLineFits body
          /\ HasPrefix (trimmedFirstLine body) "<html>" = true)
  /\ (result (readType body) = None
      <-> ~ (firstLineFits body
             /\ (HasPrefix (trimmedFirstLine body) "<!DOCTYPE html>" = true
                 \/ HasPrefix (trimmedFirstLine body) "<html>" = true)))
  /\ (firstLine body = "" -> result (readType body) = None).
Proof.
  assert (Hempty : firstLine body = "" ->
                   HasPrefix (trimmedFirstLine body) "<!DOCTYPE html>" = false
                   /\ HasPrefix (trimmedFirstLine body) "<html>" = false).
  { intros H. unfold trimmedFirstLine. rewrite H. split; reflexivity. }
  assert (Hex := marks_exclusive (trimmedFirstLine body)).
  rewrite readType_unfold. unfold firstLineFits.
  destruct body as [| a rest].
  - cbn in *. intuition discriminate.
  - set (body := String a rest) in *.
    destruct (Z.ltb_spec (Z.of_nat (String.length (firstLine body)))
                MaxScanTokenSize) as [Hfit | Hlong];
      [| cbn [result]; intuition (try discriminate; try lia)].
    destruct (HasPrefix (trimmedFirstLine body) "<!DOCTYPE html>");
      destruct (HasPrefix (trimmedFirstLine body) "<html>");
      cbn [result]; intuition (try discriminate; try lia).
Qed.

End ScraperFacts.

(* ================================================================= *)
(** * Properties of the download engine *)

Module DownloadFacts.

Import download.

Local Open Scope Z_scope.
Local Open Scope list_scope.

(** ** Machine integers in range *)

Lemma uint64_small z : 0 <= z < 18446744073709551616 -> uint64 z = z.
Proof.
  intros H. unfold uint64. change (2 ^ 64) with 18446744073709551616.
  apply Z.mod_small. exact H.
Qed.

Lemma int64_small z :
  - 9223372036854775808 <= z < 9223372036854775808 -> int64 z = z.
Proof.
  intros H. unfold int64.
  change (2 ^ 64) with 18446744073709551616.
  change (2 ^ 63) with 9223372036854775808.
  rewrite Z.mod_small; lia.
Qed.

(** ** [intPow] *)

Lemma uint64_mul_l a b : uint64 (uint64 a * b) = uint64 (a * b).
Proof. unfold uint64. apply Z.mul_mod_idemp_l. discriminate. Qed.

Lemma uint64_mul_r a b : uint64 (a * uint64 b) = uint64 (a * b).
Proof. unfold uint64. apply Z.mul_mod_idemp_r. discriminate. Qed.

Lemma uint64_pow a e : 0 <= e -> uint64 (uint64 a ^ e) = uint64 (a ^ e).
Proof.
  intros He. unfold uint64. symmetry. apply Zpower_mod. reflexivity.
Qed.

Lemma uint64_idem a : uint64 (uint64 a) = uint64 a.
Proof. unfold uint64. apply Z.mod_mod. discriminate. Qed.

Lemma intPowLoop_spec rounds :
  forall result base exp,
    (0 < rounds)%nat ->
    0 <= exp < 2 ^ Z.of_nat rounds ->
    uint64 (intPowLoop rounds result base exp) = uint64 (result * base ^ exp).
Proof.
  induction rounds as [| rounds IH]; intros result base exp Hr He; [lia |].
  cbn [intPowLoop].
  assert (Hland : Z.land exp 1 = exp mod 2).
  { change 1 with (Z.ones 1). rewrite Z.land_ones by lia. reflexivity. }
  assert (Hshift : Z.shiftr exp 1 = exp / 2).
  { rewrite Z.shiftr_div_pow2 by lia. reflexivity. }
  rewrite Hland, Hshift.
  pose proof (Z.div_mod exp 2 ltac:(lia)) as Hdm.
  pose proof (Z.mod_pos_bound exp 2 ltac:(lia)) as Hbit.
  set (q := exp / 2) in *. set (t := exp mod 2) in *.
  assert (Hq : 0 <= q) by (apply Z.div_pos; lia).
  assert (Hpow : base ^ exp = (base * base) ^ q * base ^ t).
  { rewrite Hdm, Z.pow_add_r, Z.pow_mul_r by lia.
    replace (base ^ 2) with (base * base) by (cbn; lia). reflexivity. }
  assert (Hres : uint64 (if t =? 1 then uint64 (result * base) else result)
                 = uint64 (result * base ^ t)).
  { destruct (Z.eqb_spec t 1) as [-> | Hne].
    - rewrite uint64_idem, Z.pow_1_r. reflexivity.
    - replace t with 0 by lia. rewrite Z.pow_0_r, Z.mul_1_r. reflexivity. }
  destruct (Z.eqb_spec q 0) as [Hq0 | Hq0].
  - rewrite Hres, Hpow, Hq0, Z.pow_0_r, Z.mul_1_l. reflexivity.
  - rewrite IH.
    + rewrite <- uint64_mul_r, uint64_pow by lia.
      rewrite uint64_mul_r, <- uint64_mul_l, Hres, uint64_mul_l.
      rewrite Hpow. f_equal. ring.
    + destruct rounds; [| lia].
      cbn in He. lia.
    + rewrite Nat2Z.inj_succ, Z.pow_succ_r in He by lia. lia.
Qed.

Lemma intPowLoop_range rounds :
  forall result base exp,
    0 <= result < 2 ^ 64 ->
    0 <= intPowLoop rounds result base exp < 2 ^ 64.
Proof.
  induction rounds as [| rounds IH]; intros result base exp Hres;
    cbn [intPowLoop]; [exact Hres |].
  assert (Hnext : 0 <= (if Z.land exp 1 =? 1
                        then uint64 (result * base) else result) < 2 ^ 64).
  { destruct (Z.land exp 1 =? 1); [| exact Hres].
    unfold uint64. apply Z.mod_pos_bound. reflexivity. }
  destruct (Z.shiftr exp 1 =? 0); [exact Hnext |].
  apply IH. exact Hnext.
Qed.

(** [intPow] at type [uint64] is the power modulo [2 ^ 64]: the loop
    leaves through its [break] within 64 rounds. *)
Lemma intPow_spec base exp :
  0 <= exp < 2 ^ 64 -> intPow base exp = uint64 (base ^ exp).
Proof.
  intros Hexp. unfold intPow.
  rewrite <- (Z.mul_1_l (base ^ exp)).
  rewrite <- (intPowLoop_spec 64 1 base exp) by (cbn; lia).
  unfold uint64 at 1. symmetry. apply Z.mod_small.
  apply intPowLoop_range. split; [lia | reflexivity].
Qed.

(** ** [backoff] *)

Lemma pow2_capped e : 0 <= e <= 10 -> 1 <= 2 ^ e <= 1024.
Proof.
  intros H. split.
  - assert (0 < 2 ^ e) by (apply Z.pow_pos_nonneg; lia). lia.
  - change 1024 with (2 ^ 10). apply Z.pow_le_mono_r; lia.
Qed.

Lemma intPow_two e : 0 <= e <= 10 -> intPow 2 e = 2 ^ e.
Proof.
  intros H. pose proof (pow2_capped e H) as Hp.
  rewrite intPow_spec by (change (2 ^ 64) with 18446744073709551616; lia).
  apply uint64_small. lia.
Qed.

Section Backoff.

(** The value [rand.Int63n(n)] returns is in [[0, n)] for [n > 0]. *)
Variable Int63n : Z -> Z.
Hypothesis Int63n_range : forall n, 0 < n -> 0 <= Int63n n < n.

Lemma backoff_value k :
  0 <= k < 2 ^ 64 ->
  backoff Int63n k
  = (500 * 2 ^ Z.min k 10 + Int63n (500 * 2 ^ Z.min k 10 / 10)) * Millisecond.
Proof.
  intros Hk. change (2 ^ 64) with 18446744073709551616 in Hk.
  unfold backoff. rewrite (uint64_small k) by exact Hk.
  replace (if 10 <? k then 10 else k) with (Z.min k 10)
    by (destruct (Z.ltb_spec 10 k); lia).
  assert (He : 0 <= Z.min k 10 <= 10) by lia.
  rewrite (intPow_two _ He).
  pose proof (pow2_capped _ He) as Hp.
  set (p := 2 ^ Z.min k 10) in *.
  rewrite (uint64_small (p * 500)) by lia.
  rewrite (int64_small (p * 500)) by lia.
  rewrite Z.quot_div_nonneg by lia.
  replace (p * 500) with (500 * p) by lia.
  assert (Hn : 0 < 500 * p / 10).
  { apply Z.div_str_pos. lia. }
  assert (Hle : 500 * p / 10 <= 51200).
  { apply Z.div_le_upper_bound; lia. }
  pose proof (Int63n_range _ Hn) as Hj.
  set (j := Int63n (500 * p / 10)) in *.
  rewrite (uint64_small j) by lia.
  rewrite (uint64_small (500 * p + j)) by lia.
  rewrite (int64_small (500 * p + j)) by lia.
  unfold Millisecond.
  rewrite int64_small by lia.
  reflexivity.
Qed.

(** C7. For every retry count [k], the duration [backoff k] is a
    whole number of milliseconds [s] with
    [500 * 2 ^ min k 10 <= s < 500 * 2 ^ min k 10 + floor (500 * 2 ^ min k 10 / 10)];
    so it is at least the base, less than 1.1 times the base, and
    the base is at most 512 seconds. *)
Theorem backoff_within_jitter_interval k :
  0 <= k < 2 ^ 64 ->
  let base := 500 * 2 ^ Z.min k 10 in
  exists s,
    backoff Int63n k = s * Millisecond
    /\ base <= s < base + base / 10
    /\ 10 * s < 11 * base
    /\ base <= 512 * 1000.
Proof.
  intros Hk base.
  exists (base + Int63n (base / 10)).
  assert (He : 0 <= Z.min k 10 <= 10) by lia.
  pose proof (pow2_capped _ He) as Hp.
  assert (Hn : 0 < base / 10).
  { apply Z.div_str_pos. unfold base. lia. }
  pose proof (Int63n_range _ Hn) as Hj.
  assert (Hdiv : 10 * (base / 10) <= base).
  { apply Z.mul_div_le. lia. }
  split; [apply backoff_value; exact Hk |].
  unfold base in *. lia.
Qed.

End Backoff.

Lemma backoff_within_jitter_interval_witness :
  exists s,
    backoff (fun n => n - 1) 12 = s * Millisecond
    /\ 500 * 2 ^ Z.min 12 10 <= s < 500 * 2 ^ Z.min 12 10 + 500 * 2 ^ Z.min 12 10 / 10
    /\ 10 * s < 11 * (500 * 2 ^ Z.min 12 10)
    /\ 500 * 2 ^ Z.min 12 10 <= 512 * 1000.
Proof.
  apply (backoff_within_jitter_interval (fun n => n - 1)).
  - intros n Hn. lia.
  - split; [lia | reflexivity].
Defined.

(** ** [parseContentLength] *)







Example ParseInt_examples :
  ParseInt "1024" = Some 1024
  /\ ParseInt "-5" = Some (-5)
  /\ ParseInt "+7" = Some 7
  /\ ParseInt "12a" = None
  /\ ParseInt "1_000" = None
  /\ ParseInt "-" = None
  /\ ParseInt "9223372036854775807" = Some 9223372036854775807
  /\ ParseInt "9223372036854775808" = None
  /\ ParseInt "-9223372036854775808" = Some (-9223372036854775808).
Proof. repeat split; reflexivity. Qed.

(** ** The checks on [Content-Length] when resuming *)




(** ** The status of the answer *)

(** [downloadImpl] never reads [resp.StatusCode]: an attempt goes the
    same way whatever the status. *)
Lemma status_is_not_inspected
    (time_Parse : string -> option Time.t) status status' h body readFails
    closeFails sk tr wr dc w canResume :
  attempt time_Parse
    (mkAttempt (Responds (mkResponse status h body readFails closeFails))
               sk tr wr) dc w canResume
  = attempt time_Parse
      (mkAttempt (Responds (mkResponse status' h body readFails closeFails))
                 sk tr wr) dc w canResume.
Proof. reflexivity. Qed.

(** C5, on an answer with status 404: the download succeeds at the
    first attempt and the body of the answer is published at the
    final path. *)
Theorem not_found_answer_is_published :
  let script := [noFaults (Responds (answer 404 (contentLength "9") 9))] in
  exists r,
    DownloadToFile neverParses anyURL noJitter script quiet emptyDisk
      "http://example.org/missing" "missing" (DownloadOptions.mk 0 0 0)
    = Some r
    /\ failure r = None
    /\ DownloadResults.Retries (res r) = 0
    /\ List.length (requests (trace r)) = 1%nat
    /\ disk r "missing"%string = Some (mkFileEntry (bytes 9) (now quiet)).
Proof.
  intros script. eexists. split; [reflexivity |].
  repeat split.
Qed.

(** ** What an attempt leaves untouched *)

Lemma sameBudget_refl dc : sameBudget dc dc.
Proof. repeat split. Qed.

Lemma sameBudget_trans dc1 dc2 dc3 :
  sameBudget dc1 dc2 -> sameBudget dc2 dc3 -> sameBudget dc1 dc3.
Proof. unfold sameBudget. intuition congruence. Qed.

Lemma checkContentLength_budget canResume cl dc dc' :
  checkContentLength canResume cl dc = inr dc' -> sameBudget dc dc'.
Proof.
  unfold checkContentLength.
  repeat match goal with
         | |- context [if ?b then _ else _] => destruct b
         end;
    intros [= <-]; repeat split.
Qed.

Lemma checkLastModified_budget mt dc dc' :
  checkLastModified mt dc = inr dc' -> sameBudget dc dc'.
Proof.
  unfold checkLastModified.
  repeat match goal with
         | |- context [if ?b then _ else _] => destruct b
         end;
    intros [= <-]; repeat split.
Qed.

Lemma attempt_frame (time_Parse : string -> option Time.t) a dc w canResume :
  match attempt time_Parse a dc w canResume with
  | Fatal _ dc' w' => sameBudget dc dc' /\ afterRequest w w'
  | Retry _ dc' w' _ => sameBudget dc dc' /\ afterRequest w w'
  | Done dc' w' => sameBudget dc dc' /\ afterRequest w w'
  end.
Proof.
  assert (Hreq : forall r file,
             afterRequest w (mkWorld file (requests w ++ [r]) (sleeps w))).
  { intros r file. split; [reflexivity |]. cbn [requests].
    rewrite length_app. simpl. lia. }
  unfold attempt.
  destruct (roundTrip a) as [| resp].
  { split; [apply sameBudget_refl | apply Hreq]. }
  set (cr := if negb canResume then parseCanResume (Hdr resp) else canResume).
  set (dropped := negb cr && (0 <? bytesRead dc)).
  destruct (dropped && seekFails a).
  { split; [apply sameBudget_refl | apply Hreq]. }
  destruct (dropped && truncateFails a).
  { split; [apply sameBudget_refl | apply Hreq]. }
  set (w1 := if dropped then setFile _ _ else _).
  set (dc1 := if dropped then setBytesRead dc 0 else dc).
  assert (Hw1 : afterRequest w w1).
  { unfold w1. destruct dropped; apply Hreq. }
  assert (Hdc1 : sameBudget dc dc1).
  { unfold dc1. destruct dropped; repeat split. }
  destruct (checkContentLength cr (parseContentLength (Hdr resp)) dc1)
    as [e | dc2] eqn:Hcl.
  { split; assumption. }
  apply checkContentLength_budget in Hcl.
  destruct (checkLastModified (parseLastModifiedMinute time_Parse (Hdr resp)) dc2)
    as [e | dc3] eqn:Hlm.
  { split; [eapply sameBudget_trans; eassumption | assumption]. }
  apply checkLastModified_budget in Hlm.
  assert (Hdc3 : sameBudget dc dc3)
    by (eapply sameBudget_trans; [| eassumption];
        eapply sameBudget_trans; eassumption).
  destruct (Copy (f w1) resp (writeFailsAfter a)) as [[file n] cerr].
  assert (Hw2 : afterRequest w (setFile w1 file)).
  { destruct Hw1 as [H1 H2]. split; assumption. }
  assert (Hdc4 : sameBudget dc (setBytesRead dc3 (int64 (bytesRead dc3 + n)))).
  { destruct Hdc3 as [H1 [H2 H3]]. repeat split; assumption. }
  destruct cerr; [split; assumption |].
  destruct (BodyCloseFails resp); [split; assumption |].
  match goal with
  | |- context [if ?b then _ else _] => destruct b
  end; split; assumption.
Qed.

(** ** Which errors are retried *)

Lemma checkContentLength_fatal canResume cl dc e :
  checkContentLength canResume cl dc = inl e -> retried e = false.
Proof.
  unfold checkContentLength.
  repeat match goal with
         | |- context [if ?b then _ else _] => destruct b
         end;
    intros [= <-]; reflexivity.
Qed.

Lemma checkLastModified_fatal mt dc e :
  checkLastModified mt dc = inl e -> retried e = false.
Proof.
  unfold checkLastModified.
  repeat match goal with
         | |- context [if ?b then _ else _] => destruct b
         end;
    intros [= <-]; reflexivity.
Qed.

Lemma Copy_error file resp wr file' n ce :
  Copy file resp wr = (file', n, Some ce) ->
  (ce = ReadError -> BodyReadFails resp = true)
  /\ (ce = WriteError ->
      exists k, wr = Some k /\ (k < List.length (Body resp))%nat).
Proof.
  unfold Copy. destruct wr as [k |].
  - destruct (Nat.ltb_spec k (List.length (Body resp))).
    + intros [= _ _ <-]. split; [discriminate |].
      intros _. exists k. split; [reflexivity | assumption].
    + destruct (BodyReadFails resp); intros [= _ _ <-].
      split; [reflexivity | discriminate].
  - destruct (BodyReadFails resp); intros [= _ _ <-].
    split; [reflexivity | discriminate].
Qed.

Lemma attempt_retry_origin (time_Parse : string -> option Time.t)
    a dc w canResume e dc' w' canResume' :
  attempt time_Parse a dc w canResume = Retry e dc' w' canResume' ->
  (roundTrip a = DoFails /\ e = DoRequest)
  \/ (exists resp ce,
        roundTrip a = Responds resp /\ e = Download ce
        /\ (ce = ReadError -> BodyReadFails resp = true)
        /\ (ce = WriteError ->
            exists k, writeFailsAfter a = Some k
                      /\ (k < List.length (Body resp))%nat)).
Proof.
  unfold attempt.
  destruct (roundTrip a) as [| resp].
  { intros [= <- _ _ _]. left. split; reflexivity. }
  set (cr := if negb canResume then parseCanResume (Hdr resp) else canResume).
  set (dropped := negb cr && (0 <? bytesRead dc)).
  destruct (dropped && seekFails a); [discriminate |].
  destruct (dropped && truncateFails a); [discriminate |].
  destruct (checkContentLength _ _ _) as [? | dc2]; [discriminate |].
  destruct (checkLastModified _ _) as [? | dc3]; [discriminate |].
  destruct (Copy _ resp (writeFailsAfter a)) as [[file n] [ce |]] eqn:Hcopy.
  - intros [= <- _ _ _]. right. exists resp, ce.
    destruct (Copy_error _ _ _ _ _ _ Hcopy) as [Hr Hw]. auto.
  - destruct (BodyCloseFails resp); [discriminate |].
    match goal with
    | |- context [if ?b then _ else _] => destruct b
    end; discriminate.
Qed.

Lemma attempt_retry_kind (time_Parse : string -> option Time.t)
    a dc w canResume e dc' w' canResume' :
  attempt time_Parse a dc w canResume = Retry e dc' w' canResume' ->
  retried e = true.
Proof.
  intros H. apply attempt_retry_origin in H.
  destruct H as [[_ ->] | [resp [ce [_ [-> _]]]]]; reflexivity.
Qed.

Lemma attempt_fatal_kind (time_Parse : string -> option Time.t)
    a dc w canResume e dc' w' :
  attempt time_Parse a dc w canResume = Fatal e dc' w' ->
  retried e = false.
Proof.
  unfold attempt.
  destruct (roundTrip a) as [| resp]; [discriminate |].
  set (cr := if negb canResume then parseCanResume (Hdr resp) else canResume).
  set (dropped := negb cr && (0 <? bytesRead dc)).
  destruct (dropped && seekFails a); [intros [= <- _ _]; reflexivity |].
  destruct (dropped && truncateFails a); [intros [= <- _ _]; reflexivity |].
  destruct (checkContentLength _ _ _) as [e1 | dc2] eqn:Hcl.
  { intros [= <- _ _]. eapply checkContentLength_fatal. exact Hcl. }
  destruct (checkLastModified _ _) as [e2 | dc3] eqn:Hlm.
  { intros [= <- _ _]. eapply checkLastModified_fatal. exact Hlm. }
  destruct (Copy _ resp (writeFailsAfter a)) as [[file n] [ce |]].
  - discriminate.
  - destruct (BodyCloseFails resp); [intros [= <- _ _]; reflexivity |].
    match goal with
    | |- context [if ?b then _ else _] => destruct b
    end; [intros [= <- _ _]; reflexivity | discriminate].
Qed.

Lemma downloadImpl_cons (time_Parse : string -> option Time.t)
    (NewRequest_ok : string -> bool) (Int63n : Z -> Z) a script dc w canResume :
  maxRetriesReached dc = false ->
  NewRequest_ok (remoteURL dc) = true ->
  downloadImpl time_Parse NewRequest_ok Int63n (a :: script) dc w canResume
  = match attempt time_Parse a dc w canResume with
    | Fatal e dc' w' => Some (mkOutcome (Some e) dc' w')
    | Retry e dc' w' canResume' =>
        fnRetryOrErr Int63n
          (downloadImpl time_Parse NewRequest_ok Int63n script)
          e dc' w' canResume'
    | Done dc' w' => Some (mkOutcome None dc' w')
    end.
Proof.
  intros Hmax Hok. cbn [downloadImpl]. rewrite Hmax, Hok. reflexivity.
Qed.

(** C4 as the specification states it fails: a failure of the local
    file, the disk refusing a write after three bytes, is retried;
    the second request then completes the download. *)
Lemma local_write_failure_is_retried :
  let ok := answer 200 (contentLength "9") 9 in
  let diskFull := mkAttempt (Responds ok) false false (Some 3%nat) in
  let dc := mkContext "u" (DownloadOptions.mk 9 0 0) 0 0 in
  let w := mkWorld (mkFile [] 0) [] [] in
  attempt neverParses diskFull dc w false
  = Retry (Download WriteError) (setBytesRead dc 3)
          (mkWorld (mkFile (bytes 3) 3) [mkRequest None] []) false
  /\ downloadImpl neverParses anyURL noJitter
       [diskFull; noFaults (Responds ok)] dc w false
     = Some (mkOutcome None
               (mkContext "u" (DownloadOptions.mk 9 0 0) 9 1)
               (mkWorld (mkFile (bytes 9) 9)
                        [mkRequest None; mkRequest None] [1000000000])).
Proof. split; vm_compute; reflexivity. Qed.

(** *** The outcome of an attempt, from what it meets *)

Lemma resumes_after_headers canResume resp :
  (if negb canResume then parseCanResume (Hdr resp) else canResume)
  = resumes canResume resp.
Proof. unfold resumes. destruct canResume; reflexivity. Qed.

Lemma checkContentLength_cases (cr : bool) cl dc :
  let E := DownloadOptions.ExpectedSize (opts dc) in
  let expected := if cr then int64 (E - bytesRead dc) else E in
  ((0 <? cl) && (0 <? E) && negb (cl =? expected) = true ->
   checkContentLength cr cl dc
   = inl (if cr then RemainingContentLength expected cl
          else ContentLength E cl))
  /\ ((0 <? cl) && (0 <? E) && negb (cl =? expected) = false ->
      exists dc2,
        checkContentLength cr cl dc = inr dc2
        /\ bytesRead dc2 = bytesRead dc
        /\ DownloadOptions.ExpectedLastModified (opts dc2)
           = DownloadOptions.ExpectedLastModified (opts dc)
        /\ DownloadOptions.ExpectedSize (opts dc2)
           = (if (0 <? cl) && negb (0 <? E)
              then if cr then int64 (bytesRead dc + cl) else cl
              else E)).
Proof.
  intros E expected. unfold checkContentLength. fold E.
  destruct (0 <? cl); cbn [andb negb].
  - destruct cr; fold expected.
    + destruct (0 <? E); cbn [andb negb].
      * destruct (cl =? expected); cbn [negb].
        -- split; [discriminate |]. intros _. exists dc. auto.
        -- split; [reflexivity | discriminate].
      * split; [discriminate |]. intros _. eexists. split; [reflexivity |].
        cbn. auto.
    + subst expected. destruct (0 <? E); cbn [andb negb].
      * destruct (Z.eqb_spec cl E) as [-> | Hne]; cbn [negb].
        -- split; [discriminate |]. intros _. eexists.
           split; [reflexivity |]. cbn. auto.
        -- split; [reflexivity | discriminate].
      * split; [discriminate |]. intros _. eexists. split; [reflexivity |].
        cbn. auto.
  - split; [discriminate |]. intros _. exists dc. auto.
Qed.

Lemma checkLastModified_cases mt dc :
  let expected := DownloadOptions.ExpectedLastModified (opts dc) in
  (negb (Time.IsZero mt) && negb (Time.IsZero expected)
   && negb (Time.Equal mt expected) = true ->
   checkLastModified mt dc = inl (LastModified expected mt))
  /\ (negb (Time.IsZero mt) && negb (Time.IsZero expected)
      && negb (Time.Equal mt expected) = false ->
      exists dc3,
        checkLastModified mt dc = inr dc3
        /\ bytesRead dc3 = bytesRead dc
        /\ DownloadOptions.ExpectedSize (opts dc3)
           = DownloadOptions.ExpectedSize (opts dc)).
Proof.
  intros expected. unfold checkLastModified. fold expected.
  destruct (Time.IsZero mt); cbn [negb andb].
  - split; [discriminate |]. intros _. exists dc. auto.
  - destruct (Time.IsZero expected); cbn [negb andb].
    + split; [discriminate |]. intros _. eexists. split; [reflexivity |].
      cbn. auto.
    + destruct (Time.Equal mt expected); cbn [negb].
      * split; [discriminate |]. intros _. exists dc. auto.
      * split; [reflexivity | discriminate].
Qed.

Lemma Copy_breaks a resp file :
  copyBreaks a resp ->
  exists file' n ce,
    Copy file resp (writeFailsAfter a) = (file', n, Some ce).
Proof.
  intros [Hread | (k & Hk & Hlt)]; unfold Copy.
  - rewrite Hread. destruct (writeFailsAfter a) as [k |].
    + destruct (k <? List.length (Body resp))%nat;
        eexists; eexists; eexists; reflexivity.
    + eexists; eexists; eexists; reflexivity.
  - rewrite Hk. apply Nat.ltb_lt in Hlt. rewrite Hlt.
    eexists; eexists; eexists; reflexivity.
Qed.

Lemma Copy_completes a resp file :
  copyCompletes a resp ->
  Copy file resp (writeFailsAfter a)
  = (Write file (Body resp), Z.of_nat (List.length (Body resp)), None).
Proof.
  intros [Hread Hroom]. unfold Copy. rewrite Hread.
  destruct (writeFailsAfter a) as [k |]; [| reflexivity].
  specialize (Hroom k eq_refl). apply Nat.ltb_ge in Hroom.
  rewrite Hroom. reflexivity.
Qed.

(** The outcome of an attempt that gets an answer, in the order of the
    source: the seek and the truncate, the check on the length, the
    check on the time, the copy, the close and the final check. *)
Lemma attempt_classified (time_Parse : string -> option Time.t)
    a resp dc w canResume :
  roundTrip a = Responds resp ->
  let step := attempt time_Parse a dc w canResume in
  (localFileError a canResume resp dc = true ->
   exists dc' w',
     step = Fatal (if seekFails a then SeekToStart else Truncate) dc' w')
  /\ (localFileError a canResume resp dc = false ->
      (lengthMismatch canResume resp dc = true ->
       exists dc' w',
         step
         = Fatal (if resumes canResume resp
                  then RemainingContentLength
                         (lengthExpected canResume resp dc)
                         (parseContentLength (Hdr resp))
                  else ContentLength
                         (DownloadOptions.ExpectedSize (opts dc))
                         (parseContentLength (Hdr resp)))
                 dc' w')
      /\ (lengthMismatch canResume resp dc = false ->
          (timeMismatch time_Parse resp dc = true ->
           exists dc' w',
             step
             = Fatal (LastModified
                        (DownloadOptions.ExpectedLastModified (opts dc))
                        (parseLastModifiedMinute time_Parse (Hdr resp)))
                     dc' w')
          /\ (timeMismatch time_Parse resp dc = false ->
              (copyBreaks a resp ->
               exists ce dc' w',
                 step = Retry (Download ce) dc' w' (resumes canResume resp))
              /\ (copyCompletes a resp ->
                  (BodyCloseFails resp = true ->
                   exists dc' w', step = Fatal CloseResponseBody dc' w')
                  /\ (BodyCloseFails resp = false ->
                      (finalSizeMismatch canResume resp dc = true ->
                       exists dc' w',
                         step
                         = Fatal (FinalSize
                                    (sizeAfterHeaders canResume resp dc)
                                    (bytesAfterCopy canResume resp dc))
                                 dc' w')
                      /\ (finalSizeMismatch canResume resp dc = false ->
                          exists dc' w', step = Done dc' w')))))).
Proof.
  intros Hrt step.
  assert (Hstep : step = attempt time_Parse a dc w canResume) by reflexivity.
  clearbody step. unfold attempt in Hstep. rewrite Hrt in Hstep.
  rewrite resumes_after_headers in Hstep.
  change (negb (resumes canResume resp) && (0 <? bytesRead dc))
    with (dropsData canResume resp dc) in Hstep.
  set (w0 := mkWorld (f w) _ (sleeps w)) in Hstep.
  set (w1 := if dropsData canResume resp dc
             then setFile w0 (Truncate0 (SeekStart (f w0))) else w0) in Hstep.
  set (dc1 := if dropsData canResume resp dc then setBytesRead dc 0 else dc)
    in Hstep.
  assert (Hopts : opts dc1 = opts dc)
    by (unfold dc1; destruct (dropsData canResume resp dc); reflexivity).
  assert (Hkept : bytesRead dc1 = bytesKept canResume resp dc)
    by (unfold dc1, bytesKept; destruct (dropsData canResume resp dc);
        reflexivity).
  assert (Hresumed : resumes canResume resp = true ->
                     bytesRead dc1 = bytesRead dc).
  { intros Hr. unfold dc1, dropsData. rewrite Hr. reflexivity. }
  split.
  { (* the seek or the truncate fails *)
    unfold localFileError. intros Hlf. rewrite Hstep.
    destruct (dropsData canResume resp dc); [| discriminate Hlf].
    cbn [andb] in *.
    destruct (seekFails a); [eexists; eexists; reflexivity |].
    cbn [orb] in Hlf. rewrite Hlf. eexists; eexists; reflexivity. }
  intros Hlf.
  assert (Hseek : dropsData canResume resp dc && seekFails a = false).
  { unfold localFileError in Hlf.
    destruct (dropsData canResume resp dc); [| reflexivity].
    cbn [andb] in *. apply orb_false_iff in Hlf. apply Hlf. }
  assert (Htrunc : dropsData canResume resp dc && truncateFails a = false).
  { unfold localFileError in Hlf.
    destruct (dropsData canResume resp dc); [| reflexivity].
    cbn [andb] in *. apply orb_false_iff in Hlf. apply Hlf. }
  rewrite Hseek, Htrunc in Hstep. clear Hseek Htrunc Hlf.
  (* the check on the length *)
  destruct (checkContentLength_cases (resumes canResume resp)
              (parseContentLength (Hdr resp)) dc1) as [Hbad Hgood].
  cbv zeta in Hbad, Hgood. rewrite Hopts in Hbad, Hgood.
  assert (Hexp : (if resumes canResume resp
                  then int64 (DownloadOptions.ExpectedSize (opts dc)
                              - bytesRead dc1)
                  else DownloadOptions.ExpectedSize (opts dc))
                 = lengthExpected canResume resp dc).
  { unfold lengthExpected.
    destruct (resumes canResume resp) eqn:Hr; [| reflexivity].
    rewrite (Hresumed eq_refl). reflexivity. }
  rewrite Hexp in Hbad, Hgood.
  fold (lengthMismatch canResume resp dc) in Hbad, Hgood.
  split.
  { intros Hmis. rewrite Hstep, (Hbad Hmis). eexists; eexists; reflexivity. }
  intros Hlen. destruct (Hgood Hlen) as (dc2 & Hcl & Hread2 & Hlm2 & Hsize2).
  rewrite Hcl in Hstep. clear Hbad Hgood Hcl.
  assert (Hsize2' : DownloadOptions.ExpectedSize (opts dc2)
                    = sizeAfterHeaders canResume resp dc).
  { rewrite Hsize2. unfold sizeAfterHeaders.
    destruct ((0 <? parseContentLength (Hdr resp))
              && negb (0 <? DownloadOptions.ExpectedSize (opts dc)));
      [| reflexivity].
    destruct (resumes canResume resp) eqn:Hr; [| reflexivity].
    rewrite (Hresumed eq_refl). reflexivity. }
  (* the check on the time *)
  destruct (checkLastModified_cases
              (parseLastModifiedMinute time_Parse (Hdr resp)) dc2)
    as [Hbad Hgood].
  cbv zeta in Hbad, Hgood. rewrite Hlm2 in Hbad, Hgood.
  fold (timeMismatch time_Parse resp dc) in Hbad, Hgood.
  split.
  { intros Hmis. rewrite Hstep, (Hbad Hmis). eexists; eexists; reflexivity. }
  intros Htime. destruct (Hgood Htime) as (dc3 & Hlm & Hread3 & Hsize3).
  rewrite Hlm in Hstep. clear Hbad Hgood Hlm.
  (* the copy *)
  split.
  { intros Hbreak.
    destruct (Copy_breaks a resp (f w1) Hbreak) as (file & n & ce & Hcopy).
    rewrite Hcopy in Hstep. rewrite Hstep.
    eexists; eexists; eexists; reflexivity. }
  intros Hdone. rewrite (Copy_completes a resp (f w1) Hdone) in Hstep.
  split.
  { intros Hclose. rewrite Hclose in Hstep. rewrite Hstep.
    eexists; eexists; reflexivity. }
  intros Hclose. rewrite Hclose in Hstep. cbn [opts bytesRead setBytesRead] in Hstep.
  rewrite Hsize3, Hsize2', Hread3, Hread2, Hkept in Hstep.
  fold (bytesAfterCopy canResume resp dc) in Hstep.
  fold (finalSizeMismatch canResume resp dc) in Hstep.
  split; intros Hfinal; rewrite Hfinal in Hstep; rewrite Hstep;
    eexists; eexists; reflexivity.
Qed.

Lemma fatal_returned_at_once (time_Parse : string -> option Time.t)
    (NewRequest_ok : string -> bool) (Int63n : Z -> Z)
    a script dc w canResume e :
  maxRetriesReached dc = false ->
  NewRequest_ok (remoteURL dc) = true ->
  (exists dc' w', attempt time_Parse a dc w canResume = Fatal e dc' w') ->
  returnedAtOnce
    (downloadImpl time_Parse NewRequest_ok Int63n (a :: script) dc w canResume)
    e dc w.
Proof.
  intros Hmax Hok (dc' & w' & Hstep).
  rewrite downloadImpl_cons by assumption.
  pose proof (attempt_frame time_Parse a dc w canResume) as Hframe.
  rewrite Hstep in *. destruct Hframe as [[Hc _] [Hs Hr]].
  eexists. split; [reflexivity |]. cbn [err download.dc world]. auto.
Qed.

(** C4, amended. An attempt enters the retry path only with the
    failure of the HTTP request or with an error of the copy of the
    body, which is a read error on the response body or a write error
    on the local file.  Every other failure of an attempt is returned
    at once, with the retry count and the pauses as before the attempt
    and one request sent, whatever [MaxRetry] and whatever the server
    would answer next: a failing seek or truncate, a [Content-Length]
    that disagrees with the expected size, a [Last-Modified] that
    disagrees with the expected time, a failing close of the body and
    a final size that is not the expected one.  The cases are those of
    the source, in its order, each on what the attempt meets. *)
Theorem only_request_and_copy_errors_are_retried
    (time_Parse : string -> option Time.t) (NewRequest_ok : string -> bool)
    (Int63n : Z -> Z) a script dc w canResume :
  maxRetriesReached dc = false ->
  NewRequest_ok (remoteURL dc) = true ->
  let result :=
    downloadImpl time_Parse NewRequest_ok Int63n (a :: script) dc w canResume in
  let retry :=
    fnRetryOrErr Int63n (downloadImpl time_Parse NewRequest_ok Int63n script) in
  (roundTrip a = DoFails ->
   result
   = retry DoRequest dc
       (mkWorld (f w) (requests w ++ [requestOf dc canResume]) (sleeps w))
       canResume)
  /\ (forall resp,
        roundTrip a = Responds resp ->
        (localFileError a canResume resp dc = true ->
         returnedAtOnce result
           (if seekFails a then SeekToStart else Truncate) dc w)
        /\ (localFileError a canResume resp dc = false ->
            (lengthMismatch canResume resp dc = true ->
             returnedAtOnce result
               (if resumes canResume resp
                then RemainingContentLength
                       (lengthExpected canResume resp dc)
                       (parseContentLength (Hdr resp))
                else ContentLength
                       (DownloadOptions.ExpectedSize (opts dc))
                       (parseContentLength (Hdr resp)))
               dc w)
            /\ (lengthMismatch canResume resp dc = false ->
                (timeMismatch time_Parse resp dc = true ->
                 returnedAtOnce result
                   (LastModified
                      (DownloadOptions.ExpectedLastModified (opts dc))
                      (parseLastModifiedMinute time_Parse (Hdr resp)))
                   dc w)
                /\ (timeMismatch time_Parse resp dc = false ->
                    (copyBreaks a resp ->
                     exists ce dc' w',
                       result
                       = retry (Download ce) dc' w' (resumes canResume resp))
                    /\ (copyCompletes a resp ->
                        (BodyCloseFails resp = true ->
                         returnedAtOnce result CloseResponseBody dc w)
                        /\ (BodyCloseFails resp = false ->
                            (finalSizeMismatch canResume resp dc = true ->
                             returnedAtOnce result
                               (FinalSize
                                  (sizeAfterHeaders canResume resp dc)
                                  (bytesAfterCopy canResume resp dc))
                               dc w)
                            /\ (finalSizeMismatch canResume resp dc = false ->
                                exists out,
                                  result = Some out
                                  /\ err out = None)))))))
  /\ (forall e dc' w' canResume',
        attempt time_Parse a dc w canResume = Retry e dc' w' canResume' ->
        retried e = true
        /\ ((roundTrip a = DoFails /\ e = DoRequest)
            \/ (exists resp ce,
                  roundTrip a = Responds resp /\ e = Download ce
                  /\ (ce = ReadError -> BodyReadFails resp = true)
                  /\ (ce = WriteError ->
                      exists k, writeFailsAfter a = Some k
                                /\ (k < List.length (Body resp))%nat)))
        /\ result = retry e dc' w' canResume')
  /\ (forall e dc' w',
        attempt time_Parse a dc w canResume = Fatal e dc' w' ->
        retried e = false
        /\ result = Some (mkOutcome (Some e) dc' w')
        /\ curRetry dc' = curRetry dc
        /\ sleeps w' = sleeps w
        /\ List.length (requests w') = S (List.length (requests w))).
Proof.
  intros Hmax Hok result retry.
  assert (Hcons : result
                  = match attempt time_Parse a dc w canResume with
                    | Fatal e dc' w' => Some (mkOutcome (Some e) dc' w')
                    | Retry e dc' w' canResume' => retry e dc' w' canResume'
                    | Done dc' w' => Some (mkOutcome None dc' w')
                    end)
    by (apply downloadImpl_cons; assumption).
  assert (Hfatal : forall e,
             (exists dc' w',
                 attempt time_Parse a dc w canResume = Fatal e dc' w') ->
             returnedAtOnce result e dc w)
    by (intros e; apply fatal_returned_at_once; assumption).
  split; [| split; [| split]].
  - intros Hrt. rewrite Hcons. unfold attempt. rewrite Hrt. reflexivity.
  - intros resp Hrt.
    destruct (attempt_classified time_Parse a resp dc w canResume Hrt)
      as [Hfile Hrest].
    split; [intros H; apply Hfatal, Hfile, H |].
    intros Hlf. destruct (Hrest Hlf) as [Hlen Hrest1].
    split; [intros H; apply Hfatal, Hlen, H |].
    intros Hlen'. destruct (Hrest1 Hlen') as [Htime Hrest2].
    split; [intros H; apply Hfatal, Htime, H |].
    intros Htime'. destruct (Hrest2 Htime') as [Hcopy Hrest3].
    split.
    { intros H. destruct (Hcopy H) as (ce & dc' & w' & Hstep).
      exists ce, dc', w'. rewrite Hcons, Hstep. reflexivity. }
    intros Hdone. destruct (Hrest3 Hdone) as [Hclose Hrest4].
    split; [intros H; apply Hfatal, Hclose, H |].
    intros Hclose'. destruct (Hrest4 Hclose') as [Hfinal Hend].
    split; [intros H; apply Hfatal, Hfinal, H |].
    intros H. destruct (Hend H) as (dc' & w' & Hstep).
    eexists. rewrite Hcons, Hstep. split; reflexivity.
  - intros e dc' w' canResume' Hstep.
    split; [eapply attempt_retry_kind; exact Hstep |].
    split; [eapply attempt_retry_origin; exact Hstep |].
    rewrite Hcons, Hstep. reflexivity.
  - intros e dc' w' Hstep.
    split; [eapply attempt_fatal_kind; exact Hstep |].
    split; [rewrite Hcons, Hstep; reflexivity |].
    pose proof (attempt_frame time_Parse a dc w canResume) as Hframe.
    rewrite Hstep in Hframe.
    destruct Hframe as [[Hc _] [Hs Hr]]. auto.
Qed.

Lemma only_request_and_copy_errors_are_retried_witness :
  let a := noFaults (Responds (answer 200 (contentLength "100") 100)) in
  let next := noFaults (Responds (answer 200 (contentLength "200") 200)) in
  let dc := mkContext "u" (DownloadOptions.mk 200 0 5) 0 0 in
  let w := mkWorld (mkFile [] 0) [] [] in
  returnedAtOnce
    (downloadImpl neverParses anyURL noJitter [a; next] dc w false)
    (ContentLength 200 100) dc w.
Proof.
  intros a next dc w.
  exact (proj1
           (proj2
              (proj1
                 (proj2
                    (only_request_and_copy_errors_are_retried
                       neverParses anyURL noJitter a [next] dc w false
                       eq_refl eq_refl))
                 (answer 200 (contentLength "100") 100) eq_refl)
              eq_refl)
           eq_refl).
Defined.

(** ** The number of attempts under [MaxRetry] *)

Lemma maxRetriesReached_iff dc :
  maxRetriesReached dc = true
  <-> 0 < DownloadOptions.MaxRetry (opts dc)
      /\ DownloadOptions.MaxRetry (opts dc) <= curRetry dc.
Proof.
  unfold maxRetriesReached.
  rewrite andb_true_iff, Z.ltb_lt, Z.leb_le. reflexivity.
Qed.

Lemma retries_run_out (time_Parse : string -> option Time.t)
    (NewRequest_ok : string -> bool) (Int63n : Z -> Z) N n :
  0 < N < 2 ^ 64 ->
  forall script dc w canResume,
    DownloadOptions.MaxRetry (opts dc) = N ->
    0 <= curRetry dc ->
    curRetry dc + Z.of_nat (S n) = N ->
    NewRequest_ok (remoteURL dc) = true ->
    allRetryable time_Parse Int63n (S n) script dc w canResume ->
    exists out e,
      downloadImpl time_Parse NewRequest_ok Int63n script dc w canResume
      = Some out
      /\ err out = Some e
      /\ retried e = true
      /\ curRetry (download.dc out) = N
      /\ List.length (requests (world out))
         = (List.length (requests w) + S n)%nat
      /\ List.length (sleeps (world out))
         = (List.length (sleeps w) + n)%nat.
Proof.
  intros HN. change (2 ^ 64) with 18446744073709551616 in HN.
  induction n as [| n IH]; intros script dc w canResume Hmax Hcur Hsum Hok Hall.
  - (* the last attempt *)
    destruct script as [| a script]; [contradiction |].
    cbn [allRetryable] in Hall.
    assert (Hnot : maxRetriesReached dc = false).
    { apply not_true_is_false. rewrite maxRetriesReached_iff. lia. }
    rewrite downloadImpl_cons by assumption.
    pose proof (attempt_frame time_Parse a dc w canResume) as Hframe.
    destruct (attempt time_Parse a dc w canResume)
      as [e dc' w' | e dc' w' cr' | dc' w'] eqn:Hstep; try contradiction.
    destruct Hframe as [[Hc [Hm Hu]] [Hs Hr]].
    unfold fnRetryOrErr.
    rewrite (uint64_small (curRetry dc' + 1)) by lia.
    assert (Hreached :
              maxRetriesReached (setCurRetry dc' (curRetry dc' + 1)) = true).
    { apply maxRetriesReached_iff. cbn. lia. }
    rewrite Hreached.
    eexists. exists e. split; [reflexivity |]. cbn.
    repeat split.
    + eapply attempt_retry_kind. exact Hstep.
    + lia.
    + lia.
    + rewrite Hs. lia.
  - (* an attempt followed by a pause and another attempt *)
    destruct script as [| a script]; [contradiction |].
    cbn [allRetryable] in Hall.
    assert (Hnot : maxRetriesReached dc = false).
    { apply not_true_is_false. rewrite maxRetriesReached_iff. lia. }
    rewrite downloadImpl_cons by assumption.
    pose proof (attempt_frame time_Parse a dc w canResume) as Hframe.
    destruct (attempt time_Parse a dc w canResume)
      as [e dc' w' | e dc' w' cr' | dc' w'] eqn:Hstep; try contradiction.
    destruct Hframe as [[Hc [Hm Hu]] [Hs Hr]].
    unfold fnRetryOrErr.
    rewrite (uint64_small (curRetry dc' + 1)) in * by lia.
    assert (Hnot' :
              maxRetriesReached (setCurRetry dc' (curRetry dc' + 1)) = false).
    { apply not_true_is_false. rewrite maxRetriesReached_iff. cbn. lia. }
    rewrite Hnot'.
    edestruct (IH script (setCurRetry dc' (curRetry dc' + 1))) as
      [out [e' [Hrun [Herr [Hkind [Hcount [Hreqs Hsleeps]]]]]]];
      [ | | | | exact Hall | ].
    + cbn. congruence.
    + cbn. lia.
    + cbn. lia.
    + cbn. congruence.
    + exists out, e'. split; [exact Hrun |].
      cbn [requests sleeps] in Hreqs, Hsleeps.
      rewrite length_app, Hs in Hsleeps. cbn [List.length] in Hsleeps.
      repeat split; try assumption; lia.
Qed.

(** C10. With [MaxRetry = N > 0], a download whose attempts all fail
    with a retryable error makes exactly [N] HTTP requests and pauses
    [N - 1] times before the error of the last attempt is returned;
    with [MaxRetry = 1] that is one request and no retry. *)
Theorem max_retry_bounds_the_attempts
    (time_Parse : string -> option Time.t) (NewRequest_ok : string -> bool)
    (Int63n : Z -> Z) N script url opts canResume :
  0 < N < 2 ^ 64 ->
  DownloadOptions.MaxRetry opts = N ->
  NewRequest_ok url = true ->
  allRetryable time_Parse Int63n (Z.to_nat N) script
    (mkContext url opts 0 0) (mkWorld (mkFile [] 0) [] []) canResume ->
  exists out e,
    downloadImpl time_Parse NewRequest_ok Int63n script
      (mkContext url opts 0 0) (mkWorld (mkFile [] 0) [] []) canResume
    = Some out
    /\ err out = Some e
    /\ retried e = true
    /\ Z.of_nat (List.length (requests (world out))) = N
    /\ Z.of_nat (List.length (sleeps (world out))) = N - 1
    /\ curRetry (download.dc out) = N.
Proof.
  intros HN Hmax Hok Hall.
  destruct (Z.to_nat N) as [| n] eqn:Hn; [lia |].
  destruct (retries_run_out time_Parse NewRequest_ok Int63n N n HN script
              (mkContext url opts 0 0) (mkWorld (mkFile [] 0) [] []) canResume
              Hmax ltac:(cbn; lia) ltac:(cbn; lia) Hok Hall)
    as [out [e [Hrun [Herr [Hkind [Hcount [Hreqs Hsleeps]]]]]]].
  exists out, e. cbn in Hreqs, Hsleeps.
  repeat split; try assumption; lia.
Qed.

Lemma max_retry_bounds_the_attempts_witness :
  exists out e,
    downloadImpl neverParses anyURL noJitter
      [noFaults DoFails; noFaults DoFails; noFaults DoFails]
      (mkContext "u" (DownloadOptions.mk 0 0 1) 0 0)
      (mkWorld (mkFile [] 0) [] []) false
    = Some out
    /\ err out = Some e
    /\ retried e = true
    /\ Z.of_nat (List.length (requests (world out))) = 1
    /\ Z.of_nat (List.length (sleeps (world out))) = 1 - 1
    /\ curRetry (download.dc out) = 1.
Proof.
  apply (max_retry_bounds_the_attempts neverParses anyURL noJitter 1
           [noFaults DoFails; noFaults DoFails; noFaults DoFails]
           "u" (DownloadOptions.mk 0 0 1) false).
  - split; [lia | reflexivity].
  - reflexivity.
  - reflexivity.
  - exact I.
Defined.

(** ** The bytes of the file *)

Lemma Write_at_end file p :
  offset file = List.length (data file) ->
  Write file p
  = mkFile (data file ++ p) (List.length (data file) + List.length p).
Proof.
  intros H. unfold Write. rewrite H.
  rewrite firstn_app, firstn_all, Nat.sub_diag, firstn_O, app_nil_r.
  rewrite skipn_all2 by lia. rewrite app_nil_r. reflexivity.
Qed.

Lemma Copy_appends file resp wr file' n cerr :
  offset file = List.length (data file) ->
  Copy file resp wr = (file', n, cerr) ->
  offset file' = List.length (data file')
  /\ Z.of_nat (List.length (data file'))
     = Z.of_nat (List.length (data file)) + n
  /\ 0 <= n <= Z.of_nat (List.length (Body resp)).
Proof.
  intros Hend. unfold Copy.
  assert (Hall : forall e,
             (Write file (Body resp), Z.of_nat (List.length (Body resp)), e)
             = (file', n, cerr) ->
             offset file' = List.length (data file')
             /\ Z.of_nat (List.length (data file'))
                = Z.of_nat (List.length (data file)) + n
             /\ 0 <= n <= Z.of_nat (List.length (Body resp))).
  { intros e [= <- <- _]. rewrite (Write_at_end _ _ Hend). cbn.
    rewrite length_app. lia. }
  destruct wr as [k |]; [| apply Hall].
  destruct (Nat.ltb_spec k (List.length (Body resp))); [| apply Hall].
  intros [= <- <- _]. rewrite (Write_at_end _ _ Hend). cbn.
  rewrite length_app, length_firstn. lia.
Qed.

Lemma checkContentLength_size canResume cl dc dc' :
  checkContentLength canResume cl dc = inr dc' ->
  keepsExpectedSize dc dc' /\ bytesRead dc' = bytesRead dc.
Proof.
  unfold checkContentLength, keepsExpectedSize.
  destruct (Z.ltb_spec 0 cl); [| intros [= <-]; auto].
  destruct canResume.
  - destruct (Z.ltb_spec 0 (DownloadOptions.ExpectedSize (opts dc))).
    + destruct (negb _); [discriminate |]. intros [= <-]. auto.
    + intros [= <-]. split; [lia | reflexivity].
  - destruct (Z.ltb_spec 0 (DownloadOptions.ExpectedSize (opts dc)));
      cbn [andb].
    + destruct (Z.eqb_spec cl (DownloadOptions.ExpectedSize (opts dc)));
        cbn [negb]; [| discriminate].
      intros [= <-]. split; [intros _; cbn; assumption | reflexivity].
    + intros [= <-]. split; [lia | reflexivity].
Qed.

Lemma checkLastModified_size mt dc dc' :
  checkLastModified mt dc = inr dc' ->
  DownloadOptions.ExpectedSize (opts dc')
  = DownloadOptions.ExpectedSize (opts dc)
  /\ bytesRead dc' = bytesRead dc.
Proof.
  unfold checkLastModified.
  repeat match goal with
         | |- context [if ?b then _ else _] => destruct b
         end;
    intros [= <-]; split; reflexivity.
Qed.

Lemma attempt_bytes (time_Parse : string -> option Time.t) a dc w canResume :
  consistent dc w ->
  Z.of_nat (List.length (data (f w))) + bodyBytes a < 2 ^ 63 ->
  match attempt time_Parse a dc w canResume with
  | Fatal _ _ _ => True
  | Retry _ dc' w' _ =>
      consistent dc' w' /\ keepsExpectedSize dc dc'
      /\ Z.of_nat (List.length (data (f w')))
         <= Z.of_nat (List.length (data (f w))) + bodyBytes a
  | Done dc' w' =>
      consistent dc' w' /\ keepsExpectedSize dc dc'
      /\ (0 < DownloadOptions.ExpectedSize (opts dc') ->
          bytesRead dc' = DownloadOptions.ExpectedSize (opts dc'))
  end.
Proof.
  intros [Hoff Hread] Hbound.
  change (2 ^ 63) with 9223372036854775808 in Hbound.
  unfold attempt, bodyBytes in *.
  destruct (roundTrip a) as [| resp].
  { repeat split; try assumption. cbn [f]. lia. }
  set (cr := if negb canResume then parseCanResume (Hdr resp) else canResume).
  set (dropped := negb cr && (0 <? bytesRead dc)).
  destruct (dropped && seekFails a); [exact I |].
  destruct (dropped && truncateFails a); [exact I |].
  set (w1 := if dropped then setFile _ _ else _).
  set (dc1 := if dropped then setBytesRead dc 0 else dc).
  assert (H1 : consistent dc1 w1
               /\ DownloadOptions.ExpectedSize (opts dc1)
                  = DownloadOptions.ExpectedSize (opts dc)
               /\ Z.of_nat (List.length (data (f w1)))
                  <= Z.of_nat (List.length (data (f w)))).
  { unfold dc1, w1. destruct dropped; cbn.
    - repeat split. lia.
    - repeat split; try assumption. lia. }
  destruct H1 as [[Hoff1 Hread1] [Hes1 Hlen1]].
  destruct (checkContentLength cr (parseContentLength (Hdr resp)) dc1)
    as [e | dc2] eqn:Hcl; [exact I |].
  apply checkContentLength_size in Hcl. destruct Hcl as [Hkeep2 Hread2].
  destruct (checkLastModified (parseLastModifiedMinute time_Parse (Hdr resp)) dc2)
    as [e | dc3] eqn:Hlm; [exact I |].
  apply checkLastModified_size in Hlm. destruct Hlm as [Hes3 Hread3].
  destruct (Copy (f w1) resp (writeFailsAfter a)) as [[file n] cerr] eqn:Hcopy.
  destruct (Copy_appends _ _ _ _ _ _ Hoff1 Hcopy) as [Hoff4 [Hlen4 Hn]].
  assert (Hsum : int64 (bytesRead dc3 + n) = Z.of_nat (List.length (data file))).
  { rewrite int64_small; lia. }
  assert (Hcons : consistent (setBytesRead dc3 (int64 (bytesRead dc3 + n)))
                             (setFile w1 file)).
  { split; cbn; assumption. }
  assert (Hkeep : keepsExpectedSize dc
                    (setBytesRead dc3 (int64 (bytesRead dc3 + n)))).
  { unfold keepsExpectedSize in *. cbn [opts setBytesRead]. intros Hpos.
    rewrite Hes3, Hkeep2; [exact Hes1 | rewrite Hes1; exact Hpos]. }
  destruct cerr as [ce |].
  { repeat split; try assumption; cbn; lia. }
  destruct (BodyCloseFails resp); [exact I |].
  cbn [opts setBytesRead bytesRead].
  destruct (Z.ltb_spec 0 (DownloadOptions.ExpectedSize (opts dc3)));
    cbn [andb].
  - destruct (Z.eqb_spec (int64 (bytesRead dc3 + n))
                (DownloadOptions.ExpectedSize (opts dc3))); cbn [negb];
      [| exact I].
    repeat split; try assumption. intros _. cbn. assumption.
  - repeat split; try assumption. cbn. lia.
Qed.

Lemma scriptBytes_nonneg script : 0 <= scriptBytes script.
Proof.
  unfold scriptBytes.
  induction script as [| a script IH]; cbn [fold_right]; [lia |].
  assert (0 <= bodyBytes a)
    by (unfold bodyBytes; destruct (roundTrip a); lia).
  lia.
Qed.


Lemma length_append (s t : string) :
  String.length (s ++ t)%string = (String.length s + String.length t)%nat.
Proof. induction s as [| c s IH]; cbn; [reflexivity | rewrite IH; reflexivity]. Qed.

Lemma tmpPath_differs (localPath : string) :
  String.eqb localPath (localPath ++ ".tmp")%string = false.
Proof.
  apply String.eqb_neq. intros H.
  apply (f_equal String.length) in H. rewrite length_append in H.
  cbn in H. lia.
Qed.

(** ** What a successful [DownloadToFile] leaves on the disk *)


(** *** The size the engine learns *)








End DownloadFacts.

(* ================================================================= *)
(** * More properties of the diff *)

Module DiffExtras.

Import main.

Local Open Scope string_scope.
Local Open Scope list_scope.

Lemma ltb_irreflexive (a : string) : (a <? a) = false.
Proof.
  unfold String.ltb.
  assert (H : String.compare a a = Eq) by (apply String_as_OT.cmp_eq; reflexivity).
  rewrite H. reflexivity.
Qed.

Lemma ltb_differ (a b : string) : (a <? b) = true -> a <> b.
Proof. intros H ->. rewrite ltb_irreflexive in H. discriminate. Qed.

Lemma ltb_transitive (a b c : string) :
  (a <? b) = true -> (b <? c) = true -> (a <? c) = true.
Proof.
  unfold String.ltb.
  destruct (String.compare a b) eqn:Hab; try discriminate.
  destruct (String.compare b c) eqn:Hbc; try discriminate.
  intros _ _.
  assert (H : String.compare a c = Lt).
  { apply String_as_OT.cmp_lt. eapply String_as_OT.lt_trans.
    - apply String_as_OT.cmp_lt. exact Hab.
    - apply String_as_OT.cmp_lt. exact Hbc. }
  rewrite H. reflexivity.
Qed.

Lemma neither_less_equal (a b : string) :
  (a <? b) = false -> (b <? a) = false -> a = b.
Proof.
  unfold String.ltb.
  pose proof (String.compare_antisym a b) as HA.
  destruct (String.compare a b) eqn:E;
    destruct (String.compare b a) eqn:E'; simpl in *; intros H1 H2;
    try discriminate.
  apply String.compare_eq_iff. exact E.
Qed.

Lemma loop_step l locals r remotes e m c :
  diffLoop (l :: locals) (r :: remotes) e m c =
  if SortName l <? scraper.SortName r then
    diffLoop locals (r :: remotes) (e ++ [l]) m c
  else if scraper.SortName r <? SortName l then
    diffLoop (l :: locals) remotes e (m ++ [r]) c
  else
    diffLoop locals remotes e m (if mismatch l r then c ++ [r] else c).
Proof. reflexivity. Qed.

Lemma loop_no_locals remotes e m c :
  diffLoop [] remotes e m c = mkDiff (e ++ []) (m ++ remotes) c.
Proof. destruct remotes; reflexivity. Qed.

Lemma loop_no_remotes locals e m c :
  diffLoop locals [] e m c = mkDiff (e ++ locals) (m ++ []) c.
Proof. destruct locals; reflexivity. Qed.

(** Listings that agree file by file give nothing to do: no extra, no
    missing and no changed file.  The listings need not be sorted. *)
Theorem listings_in_sync_give_empty_diff locals remotes :
  Forall2 inSync locals remotes ->
  diffSorted locals remotes = mkDiff [] [] [].
Proof.
  unfold diffSorted. induction 1 as [| l r locals remotes [Hn [Ht Hs]] _ IH].
  - reflexivity.
  - rewrite loop_step, Hn, ltb_irreflexive.
    unfold mismatch, Time.Equal. rewrite Ht, Hs, !Z.eqb_refl. exact IH.
Qed.

Lemma listings_in_sync_give_empty_diff_witness :
  diffSorted [localFile "foo" stamp_2020_01_01 1234;
              localFile "bar" stamp_2020_02_04_0210 7]
             [remoteFile "foo" stamp_2020_01_01 1234;
              remoteFile "bar" stamp_2020_02_04_0210 7]
  = mkDiff [] [] [].
Proof.
  apply listings_in_sync_give_empty_diff.
  repeat constructor.
Defined.

Lemma loop_counts locals :
  forall remotes e m c,
    (List.length locals + List.length (missing (diffLoop locals remotes e m c))
       + List.length e
     = List.length remotes + List.length (extra (diffLoop locals remotes e m c))
       + List.length m)%nat
    /\ (List.length (extra (diffLoop locals remotes e m c))
          + List.length (changed (diffLoop locals remotes e m c))
        <= List.length e + List.length c + List.length locals)%nat
    /\ (List.length (missing (diffLoop locals remotes e m c))
          + List.length (changed (diffLoop locals remotes e m c))
        <= List.length m + List.length c + List.length remotes)%nat.
Proof.
  induction locals as [| l locals IHl].
  - intros remotes e m c. rewrite loop_no_locals. cbn [extra missing changed].
    rewrite !length_app. cbn [List.length]. lia.
  - induction remotes as [| r remotes IHr]; intros e m c.
    + rewrite loop_no_remotes. cbn [extra missing changed].
      rewrite !length_app. cbn [List.length]. lia.
    + rewrite loop_step.
      destruct (SortName l <? scraper.SortName r).
      * specialize (IHl (r :: remotes) (e ++ [l]) m c).
        rewrite length_app in IHl. cbn [List.length] in *. lia.
      * destruct (scraper.SortName r <? SortName l).
        -- specialize (IHr e (m ++ [r]) c).
           rewrite length_app in IHr. cbn [List.length] in *. lia.
        -- specialize (IHl remotes e m (if mismatch l r then c ++ [r] else c)).
           destruct (mismatch l r); [rewrite length_app in IHl |];
             cbn [List.length] in *; lia.
Qed.

Lemma loop_members locals :
  forall remotes e m c,
    incl (extra (diffLoop locals remotes e m c)) (e ++ locals)
    /\ incl (missing (diffLoop locals remotes e m c)) (m ++ remotes)
    /\ incl (changed (diffLoop locals remotes e m c)) (c ++ remotes).
Proof.
  induction locals as [| l locals IHl].
  - intros remotes e m c. rewrite loop_no_locals. cbn [extra missing changed].
    repeat split; intros x Hx; rewrite ?app_nil_r in *;
      try assumption; apply in_or_app; auto.
  - induction remotes as [| r remotes IHr]; intros e m c.
    + rewrite loop_no_remotes. cbn [extra missing changed].
      repeat split; intros x Hx; rewrite ?app_nil_r in *; assumption.
    + rewrite loop_step.
      destruct (SortName l <? scraper.SortName r).
      * destruct (IHl (r :: remotes) (e ++ [l]) m c) as [He [Hm Hc]].
        repeat split; intros x Hx; [apply He in Hx | auto | auto].
        rewrite <- app_assoc in Hx. exact Hx.
      * destruct (scraper.SortName r <? SortName l).
        -- destruct (IHr e (m ++ [r]) c) as [He [Hm Hc]].
           repeat split; intros x Hx.
           ++ auto.
           ++ apply Hm in Hx. rewrite <- app_assoc in Hx. exact Hx.
           ++ apply Hc in Hx. apply in_app_or in Hx.
              apply in_or_app. destruct Hx; [left | right; right]; assumption.
        -- destruct (IHl remotes e m (if mismatch l r then c ++ [r] else c))
             as [He [Hm Hc]].
           repeat split; intros x Hx.
           ++ apply He in Hx. apply in_app_or in Hx.
              apply in_or_app. destruct Hx; [left | right; right]; assumption.
           ++ apply Hm in Hx. apply in_app_or in Hx.
              apply in_or_app. destruct Hx; [left | right; right]; assumption.
           ++ apply Hc in Hx. destruct (mismatch l r).
              ** rewrite <- app_assoc in Hx. exact Hx.
              ** apply in_app_or in Hx.
                 apply in_or_app. destruct Hx; [left | right; right]; assumption.
Qed.

(** Whatever the two listings are, sorted or not: the files in [extra]
    are locals and the files in [missing] and in [changed] are remotes;
    as many locals as remotes are left out of [extra] and [missing]
    (those that were paired); and no more files are reported than
    listed, so that no remote is queued for download twice. *)
Theorem diff_reports_listed_files_once locals remotes :
  incl (extra (diffSorted locals remotes)) locals
  /\ incl (missing (diffSorted locals remotes)) remotes
  /\ incl (changed (diffSorted locals remotes)) remotes
  /\ (List.length locals + List.length (missing (diffSorted locals remotes))
      = List.length remotes + List.length (extra (diffSorted locals remotes)))%nat
  /\ (List.length (extra (diffSorted locals remotes))
        + List.length (changed (diffSorted locals remotes))
      <= List.length locals)%nat
  /\ (List.length (missing (diffSorted locals remotes))
        + List.length (changed (diffSorted locals remotes))
      <= List.length remotes)%nat.
Proof.
  unfold diffSorted.
  destruct (loop_members locals remotes [] [] []) as [He [Hm Hc]].
  destruct (loop_counts locals remotes [] [] []) as [H1 [H2 H3]].
  cbn [List.length app] in *.
  repeat split; try assumption; lia.
Qed.

(** What the three cases of the loop know about the rest of two
    strictly sorted listings. *)
Lemma remotes_above l r remotes :
  remotesStrictlySorted (r :: remotes) ->
  (SortName l <? scraper.SortName r) = true ->
  forall r', In r' (r :: remotes) -> SortName l <> scraper.SortName r'.
Proof.
  intros Hs Hlt r' [<- | Hin]; [apply ltb_differ; exact Hlt |].
  inversion Hs as [| ? ? _ Hall]; subst.
  rewrite Forall_forall in Hall. apply ltb_differ.
  eapply ltb_transitive; [exact Hlt | apply Hall; exact Hin].
Qed.

Lemma locals_above r l locals :
  localsStrictlySorted (l :: locals) ->
  (scraper.SortName r <? SortName l) = true ->
  forall l', In l' (l :: locals) -> SortName l' <> scraper.SortName r.
Proof.
  intros Hs Hlt l' [<- | Hin]; [apply not_eq_sym, ltb_differ; exact Hlt |].
  inversion Hs as [| ? ? _ Hall]; subst.
  rewrite Forall_forall in Hall. apply not_eq_sym, ltb_differ.
  eapply ltb_transitive; [exact Hlt | apply Hall; exact Hin].
Qed.

Lemma later_locals_differ l locals :
  localsStrictlySorted (l :: locals) ->
  forall l', In l' locals -> SortName l' <> SortName l.
Proof.
  intros Hs l' Hin. inversion Hs as [| ? ? _ Hall]; subst.
  rewrite Forall_forall in Hall. apply not_eq_sym, ltb_differ, Hall, Hin.
Qed.

Lemma later_remotes_differ r remotes :
  remotesStrictlySorted (r :: remotes) ->
  forall r', In r' remotes -> scraper.SortName r' <> scraper.SortName r.
Proof.
  intros Hs r' Hin. inversion Hs as [| ? ? _ Hall]; subst.
  rewrite Forall_forall in Hall. apply not_eq_sym, ltb_differ, Hall, Hin.
Qed.

Lemma loop_exact locals :
  localsStrictlySorted locals ->
  forall remotes, remotesStrictlySorted remotes ->
  forall e m c,
    (forall x, In x (extra (diffLoop locals remotes e m c)) <->
               In x e \/ (In x locals
                          /\ forall r, In r remotes ->
                                       SortName x <> scraper.SortName r))
    /\ (forall y, In y (missing (diffLoop locals remotes e m c)) <->
                  In y m \/ (In y remotes
                             /\ forall l, In l locals ->
                                          SortName l <> scraper.SortName y))
    /\ (forall y, In y (changed (diffLoop locals remotes e m c)) <->
                  In y c \/ (In y remotes
                             /\ exists l, In l locals
                                          /\ SortName l = scraper.SortName y
                                          /\ mismatch l y = true)).
Proof.
  induction locals as [| l locals IHl]; intros Hl.
  - intros remotes _ e m c. rewrite loop_no_locals. cbn [extra missing changed].
    repeat split; try rewrite app_nil_r; try rewrite in_app_iff;
      try solve [intuition auto]; try solve [firstorder].
  - assert (Hl' : localsStrictlySorted locals) by (inversion Hl; assumption).
    induction remotes as [| r remotes IHr]; intros Hr e m c.
    + rewrite loop_no_remotes. cbn [extra missing changed].
      repeat split; try rewrite app_nil_r; try rewrite in_app_iff;
        try solve [intuition auto]; try solve [firstorder].
    + assert (Hr' : remotesStrictlySorted remotes) by (inversion Hr; assumption).
      rewrite loop_step.
      destruct (SortName l <? scraper.SortName r) eqn:Hlt.
      * (* the local is extra *)
        pose proof (remotes_above l r remotes Hr Hlt) as Habove.
        destruct (IHl Hl' (r :: remotes) Hr (e ++ [l]) m c) as [He [Hm Hc]].
        split; [| split].
        -- intros x. rewrite He, in_app_iff. cbn [In].
           split.
           ++ intros [[H | [<- | []]] | [H1 H2]]; auto.
           ++ intros [H | [[<- | H1] H2]]; auto.
        -- intros y. rewrite Hm. cbn [In].
           split.
           ++ intros [H | [H1 H2]]; [auto |].
              right. split; [exact H1 |].
              intros l' [<- | Hin]; [apply Habove; exact H1 | auto].
           ++ intros [H | [H1 H2]]; auto.
        -- intros y. rewrite Hc. cbn [In].
           split.
           ++ intros [H | [H1 [l' [H2 H3]]]]; [auto |].
              right. split; [exact H1 |]. exists l'. auto.
           ++ intros [H | [H1 [l' [[<- | H2] [H3 H4]]]]]; [auto | |].
              ** exfalso. apply (Habove y H1). exact H3.
              ** right. split; [exact H1 |]. exists l'. auto.
      * destruct (scraper.SortName r <? SortName l) eqn:Hgt.
        -- (* the remote is missing *)
           pose proof (locals_above r l locals Hl Hgt) as Habove.
           destruct (IHr Hr' e (m ++ [r]) c) as [He [Hm Hc]].
           split; [| split].
           ++ intros x. rewrite He. cbn [In].
              split.
              ** intros [H | [H1 H2]]; [auto |].
                 right. split; [exact H1 |].
                 intros r' [<- | Hin]; [apply Habove; exact H1 | auto].
              ** intros [H | [H1 H2]]; auto.
           ++ intros y. rewrite Hm, in_app_iff. cbn [In].
              split.
              ** intros [[H | [<- | []]] | [H1 H2]]; auto.
              ** intros [H | [[<- | H1] H2]]; auto.
           ++ intros y. rewrite Hc. cbn [In].
              split.
              ** intros [H | [H1 [l' [H2 H3]]]]; [auto |].
                 right. split; [right; exact H1 |]. exists l'. auto.
              ** intros [H | [[<- | H1] [l' [H2 [H3 H4]]]]]; [auto | |].
                 --- exfalso. apply (Habove l' H2). exact H3.
                 --- right. split; [exact H1 |]. exists l'. auto.
        -- (* a pair *)
           pose proof (neither_less_equal _ _ Hlt Hgt) as Hname.
           pose proof (later_locals_differ l locals Hl) as Hlater.
           pose proof (later_remotes_differ r remotes Hr) as Hlater'.
           destruct (IHl Hl' remotes Hr' e m
                       (if mismatch l r then c ++ [r] else c)) as [He [Hm Hc]].
           split; [| split].
           ++ intros x. rewrite He. cbn [In].
              split.
              ** intros [H | [H1 H2]]; [auto |].
                 right. split; [right; exact H1 |].
                 intros r' [<- | Hin]; [| auto].
                 rewrite <- Hname. apply Hlater. exact H1.
              ** intros [H | [[<- | H1] H2]]; [auto | |].
                 --- exfalso. apply (H2 r); auto.
                 --- right. split; [exact H1 |]. intros r' Hin. apply H2. auto.
           ++ intros y. rewrite Hm. cbn [In].
              split.
              ** intros [H | [H1 H2]]; [auto |].
                 right. split; [right; exact H1 |].
                 intros l' [<- | Hin]; [| auto].
                 rewrite Hname. apply not_eq_sym, Hlater'. exact H1.
              ** intros [H | [[<- | H1] H2]]; [auto | |].
                 --- exfalso. apply (H2 l); auto.
                 --- right. split; [exact H1 |]. intros l' Hin. apply H2. auto.
           ++ intros y. rewrite Hc. cbn [In].
              split.
              ** intros [H | [H1 [l' [H2 H3]]]].
                 --- destruct (mismatch l r) eqn:Hmm; [| auto].
                     apply in_app_iff in H. destruct H as [H | [<- | []]]; [auto |].
                     right. split; [auto |]. exists l. auto.
                 --- right. split; [right; exact H1 |]. exists l'. auto.
              ** intros [H | [[<- | H1] [l' [[<- | H2] [H3 H4]]]]].
                 --- left. destruct (mismatch l r); [apply in_app_iff |]; auto.
                 --- left. rewrite H4. apply in_app_iff. right. left. reflexivity.
                 --- exfalso. apply (Hlater l' H2). congruence.
                 --- exfalso. apply (Hlater' y H1). congruence.
                 --- right. split; [exact H1 |]. exists l'. auto.
Qed.

(** For sorted listings in which no [SortName] occurs twice, the diff
    is exactly the three-way difference: [extra] holds the locals whose
    [SortName] no remote has, [missing] the remotes whose [SortName] no
    local has, and [changed] the remotes whose local of the same
    [SortName] differs by the test of line 225. *)
Theorem diff_is_three_way_difference locals remotes :
  localsStrictlySorted locals ->
  remotesStrictlySorted remotes ->
  (forall x, In x (extra (diffSorted locals remotes)) <->
             In x locals
             /\ forall r, In r remotes -> SortName x <> scraper.SortName r)
  /\ (forall y, In y (missing (diffSorted locals remotes)) <->
                In y remotes
                /\ forall l, In l locals -> SortName l <> scraper.SortName y)
  /\ (forall y, In y (changed (diffSorted locals remotes)) <->
                In y remotes
                /\ exists l, In l locals
                             /\ SortName l = scraper.SortName y
                             /\ mismatch l y = true).
Proof.
  intros Hl Hr. unfold diffSorted.
  destruct (loop_exact locals Hl remotes Hr [] [] []) as [He [Hm Hc]].
  split; [| split]; intros x; rewrite ?He, ?Hm, ?Hc; cbn [In]; tauto.
Qed.

Lemma diff_is_three_way_difference_witness :
  (forall x, In x (extra (diffSorted threeLocals threeRemotes)) <->
             In x threeLocals
             /\ forall r, In r threeRemotes -> SortName x <> scraper.SortName r)
  /\ (forall y, In y (missing (diffSorted threeLocals threeRemotes)) <->
                In y threeRemotes
                /\ forall l, In l threeLocals -> SortName l <> scraper.SortName y)
  /\ (forall y, In y (changed (diffSorted threeLocals threeRemotes)) <->
                In y threeRemotes
                /\ exists l, In l threeLocals
                             /\ SortName l = scraper.SortName y
                             /\ mismatch l y = true).
Proof.
  apply (diff_is_three_way_difference threeLocals threeRemotes);
    repeat constructor.
Defined.

(** ** The order of the reported files *)






End DiffExtras.

(* ================================================================= *)
(** * The sentinel of an unknown remote time *)

Module DiffSentinel.

Import main.

Local Open Scope string_scope.
Local Open Scope list_scope.

(** C2. [RemoteFile.Timestamp] is documented as zero when the time is
    not known, but line 225 compares it like any other instant: in
    listings without repeated [SortName]s, a remote with the zero
    [Timestamp] whose local partner has the same [Size] and a known
    modification time is classified as changed, by the time comparison
    alone. *)
Theorem zero_remote_time_is_classified_changed locals remotes l r :
  localsStrictlySorted locals ->
  remotesStrictlySorted remotes ->
  In l locals ->
  In r remotes ->
  SortName l = scraper.SortName r ->
  Size l = scraper.Size r ->
  Time.IsZero (scraper.Timestamp r) = true ->
  Time.IsZero (Timestamp l) = false ->
  In r (changed (diffSorted locals remotes))
  /\ ~ In r (missing (diffSorted locals remotes)).
Proof.
  intros Hl Hr Hinl Hinr Hname Hsize Hzero Hknown. unfold diffSorted.
  destruct (DiffExtras.loop_exact locals Hl remotes Hr [] [] [])
    as (_ & Hm & Hc).
  split.
  - apply Hc. right. split; [exact Hinr |].
    exists l. split; [exact Hinl |]. split; [exact Hname |].
    unfold mismatch, Time.Equal. unfold Time.IsZero in Hzero, Hknown.
    apply Z.eqb_eq in Hzero. apply Z.eqb_neq in Hknown.
    rewrite Hzero. apply Z.eqb_neq in Hknown. rewrite Hknown. reflexivity.
  - intros Hin. apply Hm in Hin. destruct Hin as [[] | [_ Hnone]].
    apply (Hnone l Hinl Hname).
Qed.

Lemma zero_remote_time_is_classified_changed_witness :
  let local := localFile "foo" stamp_2020_01_01 1234 in
  let remote := remoteFile "foo" Time.zero 1234 in
  In remote (changed (diffSorted [local] [remote]))
  /\ ~ In remote (missing (diffSorted [local] [remote])).
Proof.
  intros local remote.
  apply (zero_remote_time_is_classified_changed [local] [remote] local remote).
  - repeat constructor.
  - repeat constructor.
  - left. reflexivity.
  - left. reflexivity.
  - reflexivity.
  - reflexivity.
  - reflexivity.
  - reflexivity.
Defined.

End DiffSentinel.

(* ================================================================= *)
(** * More properties of the download engine *)

Module DownloadExtras.

Import download.

Local Open Scope Z_scope.
Local Open Scope list_scope.

(** ** [intPow] *)

(** At type [uint64], [intPow base exp] is [base ^ exp] modulo
    [2 ^ 64], for every base and every exponent of the type: the loop
    leaves through its [break], and the products wrap around. *)
Theorem intPow_is_power_modulo_word base exp :
  0 <= exp < 2 ^ 64 ->
  intPow base exp = (base ^ exp) mod 2 ^ 64.
Proof.
  intros Hexp. rewrite (DownloadFacts.intPow_spec base exp Hexp).
  reflexivity.
Qed.

Lemma intPow_is_power_modulo_word_witness :
  intPow 3 41 = (3 ^ 41) mod 2 ^ 64.
Proof.
  apply (intPow_is_power_modulo_word 3 41).
  split; [lia | reflexivity].
Defined.

(** ** [parseLastModifiedMinute] *)

(** The time [parseLastModifiedMinute] returns is always a whole number
    of minutes since the zero time.  It is the zero time when the
    header is absent or does not parse, and otherwise the parsed time
    rounded down: not later than it, and less than a minute earlier. *)
Theorem last_modified_is_whole_minute
    (time_Parse : string -> option Time.t) (h : Header) :
  (parseLastModifiedMinute time_Parse h) mod Time.Minute = 0
  /\ (Get h "Last-Modified" = EmptyString
      \/ time_Parse (Get h "Last-Modified") = None ->
      parseLastModifiedMinute time_Parse h = Time.zero)
  /\ (forall t,
        Get h "Last-Modified" <> EmptyString ->
        time_Parse (Get h "Last-Modified") = Some t ->
        parseLastModifiedMinute time_Parse h <= t
        /\ t < parseLastModifiedMinute time_Parse h + Time.Minute).
Proof.
  unfold parseLastModifiedMinute, Time.Truncate, Time.zero.
  change (Time.Minute <=? 0) with false. cbv iota.
  assert (Hmin : 0 < Time.Minute) by reflexivity.
  destruct (Get h "Last-Modified") as [| a rest].
  - cbn [String.length Nat.eqb].
    split; [reflexivity | split; [reflexivity |]].
    intros t Hne _. exfalso. apply Hne. reflexivity.
  - cbn [String.length Nat.eqb].
    destruct (time_Parse (String a rest)) as [t |].
    + pose proof (Z.mod_pos_bound t Time.Minute Hmin) as Hb.
      pose proof (Z.div_mod t Time.Minute ltac:(lia)) as Hd.
      split; [| split].
      * replace (t - t mod Time.Minute) with (t / Time.Minute * Time.Minute)
          by lia.
        apply Z.mod_mul. lia.
      * intros [H | H]; discriminate H.
      * intros t' _ [= <-]. lia.
    + split; [reflexivity | split; [reflexivity |]].
      intros t _ H. discriminate H.
Qed.

(** ** What the caller asked for is kept *)

Lemma kept_refl dc : keepsExpectedSize dc dc /\ keepsLastModified dc dc.
Proof. split; intros _; reflexivity. Qed.

Lemma kept_trans dc1 dc2 dc3 :
  keepsExpectedSize dc1 dc2 /\ keepsLastModified dc1 dc2 ->
  keepsExpectedSize dc2 dc3 /\ keepsLastModified dc2 dc3 ->
  keepsExpectedSize dc1 dc3 /\ keepsLastModified dc1 dc3.
Proof.
  unfold keepsExpectedSize, keepsLastModified.
  intros [Hs12 Ht12] [Hs23 Ht23]. split; intros H.
  - rewrite Hs23; [apply Hs12; exact H | rewrite Hs12; exact H].
  - rewrite Ht23; [apply Ht12; exact H | rewrite Ht12; exact H].
Qed.

Lemma checkContentLength_kept canResume cl dc dc' :
  checkContentLength canResume cl dc = inr dc' ->
  keepsExpectedSize dc dc' /\ keepsLastModified dc dc'.
Proof.
  intros H. split.
  - apply (DownloadFacts.checkContentLength_size _ _ _ _ H).
  - revert H. unfold checkContentLength, keepsLastModified.
    repeat match goal with
           | |- context [if ?b then _ else _] => destruct b
           end;
      intros [= <-] _; reflexivity.
Qed.

Lemma checkLastModified_kept mt dc dc' :
  checkLastModified mt dc = inr dc' ->
  keepsExpectedSize dc dc' /\ keepsLastModified dc dc'.
Proof.
  intros H. split.
  - intros _. apply (DownloadFacts.checkLastModified_size _ _ _ H).
  - revert H. unfold checkLastModified, keepsLastModified.
    destruct (negb (Time.IsZero mt)); [| intros [= <-] _; reflexivity].
    destruct (Time.IsZero (DownloadOptions.ExpectedLastModified (opts dc)))
      eqn:Hzero.
    + intros _ H. discriminate H.
    + destruct (negb _); [discriminate |]. intros [= <-] _. reflexivity.
Qed.

Lemma attempt_kept (time_Parse : string -> option Time.t) a dc w canResume :
  match attempt time_Parse a dc w canResume with
  | Fatal _ dc' _ => keepsExpectedSize dc dc' /\ keepsLastModified dc dc'
  | Retry _ dc' _ _ => keepsExpectedSize dc dc' /\ keepsLastModified dc dc'
  | Done dc' _ => keepsExpectedSize dc dc' /\ keepsLastModified dc dc'
  end.
Proof.
  unfold attempt.
  destruct (roundTrip a) as [| resp]; [apply kept_refl |].
  set (cr := if negb canResume then parseCanResume (Hdr resp) else canResume).
  set (dropped := negb cr && (0 <? bytesRead dc)).
  destruct (dropped && seekFails a); [apply kept_refl |].
  destruct (dropped && truncateFails a); [apply kept_refl |].
  set (w1 := if dropped then setFile _ _ else _).
  set (dc1 := if dropped then setBytesRead dc 0 else dc).
  assert (H1 : keepsExpectedSize dc dc1 /\ keepsLastModified dc dc1).
  { unfold dc1. destruct dropped; split; intros _; reflexivity. }
  destruct (checkContentLength cr (parseContentLength (Hdr resp)) dc1)
    as [e | dc2] eqn:Hcl; [exact H1 |].
  apply checkContentLength_kept in Hcl.
  pose proof (kept_trans _ _ _ H1 Hcl) as H2.
  destruct (checkLastModified (parseLastModifiedMinute time_Parse (Hdr resp)) dc2)
    as [e | dc3] eqn:Hlm; [exact H2 |].
  apply checkLastModified_kept in Hlm.
  pose proof (kept_trans _ _ _ H2 Hlm) as H3.
  destruct (Copy (f w1) resp (writeFailsAfter a)) as [[file n] cerr].
  assert (H4 : keepsExpectedSize dc (setBytesRead dc3 (int64 (bytesRead dc3 + n)))
               /\ keepsLastModified dc
                    (setBytesRead dc3 (int64 (bytesRead dc3 + n)))).
  { exact H3. }
  destruct cerr; [exact H4 |].
  destruct (BodyCloseFails resp); [exact H4 |].
  match goal with
  | |- context [if ?b then _ else _] => destruct b
  end; exact H4.
Qed.

Lemma downloadImpl_kept (time_Parse : string -> option Time.t)
    (NewRequest_ok : string -> bool) (Int63n : Z -> Z) script :
  forall dc w canResume out,
    downloadImpl time_Parse NewRequest_ok Int63n script dc w canResume
    = Some out ->
    keepsExpectedSize dc (download.dc out)
    /\ keepsLastModified dc (download.dc out).
Proof.
  induction script as [| a script IH]; intros dc w canResume out;
    cbn [downloadImpl].
  - destruct (maxRetriesReached dc); [intros [= <-]; apply kept_refl |].
    destruct (negb (NewRequest_ok (remoteURL dc)));
      [intros [= <-]; apply kept_refl | discriminate].
  - destruct (maxRetriesReached dc); [intros [= <-]; apply kept_refl |].
    destruct (negb (NewRequest_ok (remoteURL dc)));
      [intros [= <-]; apply kept_refl |].
    pose proof (attempt_kept time_Parse a dc w canResume) as Hstep.
    destruct (attempt time_Parse a dc w canResume)
      as [e dc' w' | e dc' w' cr' | dc' w'].
    + intros [= <-]. exact Hstep.
    + unfold fnRetryOrErr.
      destruct (maxRetriesReached _); [intros [= <-]; exact Hstep |].
      intros Hrun. apply IH in Hrun.
      eapply kept_trans; [exact Hstep | exact Hrun].
    + intros [= <-]. exact Hstep.
Qed.

(** Whatever way [DownloadToFile] returns, with or without an error:
    when the caller gave a positive [ExpectedSize] the results carry
    that size, and when the caller gave a non-zero
    [ExpectedLastModified] the results carry that time.  The headers of
    the server are only ever adopted where the caller gave nothing. *)
Theorem results_keep_what_the_caller_expected
    (time_Parse : string -> option Time.t) (NewRequest_ok : string -> bool)
    (Int63n : Z -> Z) script faults disk0 url localPath options r :
  DownloadToFile time_Parse NewRequest_ok Int63n script faults disk0
    url localPath options = Some r ->
  (0 < DownloadOptions.ExpectedSize options ->
   DownloadResults.ExpectedSize (res r) = DownloadOptions.ExpectedSize options)
  /\ (Time.IsZero (DownloadOptions.ExpectedLastModified options) = false ->
      DownloadResults.LastModified (res r)
      = DownloadOptions.ExpectedLastModified options).
Proof.
  unfold DownloadToFile.
  destruct (createFails faults); [intros [= <-]; split; reflexivity |].
  destruct (downloadImpl _ _ _ script _ _ false) as [out |] eqn:Hrun;
    [| discriminate].
  apply downloadImpl_kept in Hrun. destruct Hrun as [Hsize Htime].
  assert (Hres : (0 < DownloadOptions.ExpectedSize options ->
                  DownloadResults.ExpectedSize (results (download.dc out))
                  = DownloadOptions.ExpectedSize options)
                 /\ (Time.IsZero (DownloadOptions.ExpectedLastModified options)
                     = false ->
                     DownloadResults.LastModified (results (download.dc out))
                     = DownloadOptions.ExpectedLastModified options)).
  { split; [exact Hsize | exact Htime]. }
  destruct (err out); [intros [= <-]; exact Hres |].
  destruct (closeFails faults); [intros [= <-]; exact Hres |].
  destruct (moveFails faults); [intros [= <-]; exact Hres |].
  destruct (setTimeFails faults); intros [= <-]; exact Hres.
Qed.

Lemma results_keep_what_the_caller_expected_witness :
  exists r,
    DownloadToFile neverParses anyURL noJitter
      [noFaults (Responds (answer 200 (contentLength "100") 100))]
      quiet emptyDisk "u" "p" (DownloadOptions.mk 200 1600000000 5)
    = Some r
    /\ (0 < DownloadOptions.ExpectedSize (DownloadOptions.mk 200 1600000000 5) ->
        DownloadResults.ExpectedSize (res r)
        = DownloadOptions.ExpectedSize (DownloadOptions.mk 200 1600000000 5))
    /\ (Time.IsZero
          (DownloadOptions.ExpectedLastModified
             (DownloadOptions.mk 200 1600000000 5)) = false ->
        DownloadResults.LastModified (res r)
        = DownloadOptions.ExpectedLastModified
            (DownloadOptions.mk 200 1600000000 5)).
Proof.
  eexists. split; [reflexivity |].
  apply (results_keep_what_the_caller_expected neverParses anyURL noJitter
           [noFaults (Responds (answer 200 (contentLength "100") 100))]
           quiet emptyDisk "u" "p" (DownloadOptions.mk 200 1600000000 5)).
  reflexivity.
Defined.

(** ** The retry budget *)

Lemma downloadImpl_budget (time_Parse : string -> option Time.t)
    (NewRequest_ok : string -> bool) (Int63n : Z -> Z) N script :
  0 < N < 2 ^ 64 ->
  forall dc w canResume out,
    DownloadOptions.MaxRetry (opts dc) = N ->
    0 <= curRetry dc <= N ->
    downloadImpl time_Parse NewRequest_ok Int63n script dc w canResume
    = Some out ->
    curRetry dc <= curRetry (download.dc out) <= N
    /\ Z.of_nat (List.length (requests (world out)))
       <= Z.of_nat (List.length (requests w)) + (N - curRetry dc).
Proof.
  intros HN. change (2 ^ 64) with 18446744073709551616 in HN.
  induction script as [| a script IH]; intros dc w canResume out Hmax Hcur;
    cbn [downloadImpl].
  - destruct (maxRetriesReached dc); [intros [= <-]; cbn; lia |].
    destruct (negb (NewRequest_ok (remoteURL dc)));
      [intros [= <-]; cbn; lia | discriminate].
  - destruct (maxRetriesReached dc) eqn:Hreached; [intros [= <-]; cbn; lia |].
    assert (Hlt : curRetry dc < N).
    { apply not_true_iff_false in Hreached.
      rewrite DownloadFacts.maxRetriesReached_iff in Hreached. lia. }
    destruct (negb (NewRequest_ok (remoteURL dc)));
      [intros [= <-]; cbn; lia |].
    pose proof (DownloadFacts.attempt_frame time_Parse a dc w canResume) as Hframe.
    destruct (attempt time_Parse a dc w canResume)
      as [e dc' w' | e dc' w' cr' | dc' w'];
      destruct Hframe as [[Hc [Hm Hu]] [Hs Hr]].
    + intros [= <-]. cbn. lia.
    + unfold fnRetryOrErr.
      rewrite (DownloadFacts.uint64_small (curRetry dc' + 1)) by lia.
      destruct (maxRetriesReached (setCurRetry dc' (curRetry dc' + 1)));
        [intros [= <-]; cbn; lia |].
      intros Hrun.
      apply IH in Hrun; [| cbn; congruence | cbn; lia].
      cbn [curRetry setCurRetry requests] in Hrun. lia.
    + intros [= <-]. cbn. lia.
Qed.

(** With [MaxRetry = N > 0], however the server behaves and however
    the download ends, no more than [N] requests are sent and the
    [Retries] of the results are at most [N]. *)
Theorem max_retry_caps_requests_and_retries
    (time_Parse : string -> option Time.t) (NewRequest_ok : string -> bool)
    (Int63n : Z -> Z) N script faults disk0 url localPath options r :
  0 < N < 2 ^ 64 ->
  DownloadOptions.MaxRetry options = N ->
  DownloadToFile time_Parse NewRequest_ok Int63n script faults disk0
    url localPath options = Some r ->
  0 <= DownloadResults.Retries (res r) <= N
  /\ Z.of_nat (List.length (requests (trace r))) <= N.
Proof.
  intros HN Hmax. unfold DownloadToFile.
  destruct (createFails faults); [intros [= <-]; cbn; lia |].
  destruct (downloadImpl _ _ _ script _ _ false) as [out |] eqn:Hrun;
    [| discriminate].
  apply (downloadImpl_budget _ _ _ N script HN) in Hrun;
    [| exact Hmax | cbn; lia].
  cbn [curRetry requests List.length Z.of_nat] in Hrun.
  assert (Hres : 0 <= DownloadResults.Retries (results (download.dc out)) <= N
                 /\ Z.of_nat (List.length (requests (world out))) <= N).
  { cbn [results DownloadResults.Retries]. lia. }
  destruct (err out); [intros [= <-]; exact Hres |].
  destruct (closeFails faults); [intros [= <-]; exact Hres |].
  destruct (moveFails faults); [intros [= <-]; exact Hres |].
  destruct (setTimeFails faults); intros [= <-]; exact Hres.
Qed.

Lemma max_retry_caps_requests_and_retries_witness :
  exists r,
    DownloadToFile neverParses anyURL noJitter resumedDownload quiet emptyDisk
      "u" "p" (DownloadOptions.mk 9 0 3)
    = Some r
    /\ 0 <= DownloadResults.Retries (res r) <= 3
    /\ Z.of_nat (List.length (requests (trace r))) <= 3.
Proof.
  eexists. split; [reflexivity |].
  apply (max_retry_caps_requests_and_retries neverParses anyURL noJitter 3
           resumedDownload quiet emptyDisk "u" "p" (DownloadOptions.mk 9 0 3)).
  - split; [lia | reflexivity].
  - reflexivity.
  - reflexivity.
Defined.

Lemma attempt_fatal_not_exhausted (time_Parse : string -> option Time.t)
    a dc w canResume e dc' w' :
  attempt time_Parse a dc w canResume = Fatal e dc' w' ->
  forall n, e <> MaxRetriesExceeded n.
Proof.
  unfold attempt.
  destruct (roundTrip a) as [| resp]; [discriminate |].
  set (cr := if negb canResume then parseCanResume (Hdr resp) else canResume).
  set (dropped := negb cr && (0 <? bytesRead dc)).
  destruct (dropped && seekFails a); [intros [= <- _ _]; discriminate |].
  destruct (dropped && truncateFails a); [intros [= <- _ _]; discriminate |].
  destruct (checkContentLength _ _ _) as [e1 | dc2] eqn:Hcl.
  { intros [= <- _ _]. revert Hcl. unfold checkContentLength.
    repeat match goal with
           | |- context [if ?b then _ else _] => destruct b
           end;
      intros [= <-]; discriminate. }
  destruct (checkLastModified _ _) as [e2 | dc3] eqn:Hlm.
  { intros [= <- _ _]. revert Hlm. unfold checkLastModified.
    repeat match goal with
           | |- context [if ?b then _ else _] => destruct b
           end;
      intros [= <-]; discriminate. }
  destruct (Copy _ resp (writeFailsAfter a)) as [[file n] [ce |]].
  - discriminate.
  - destruct (BodyCloseFails resp); [intros [= <- _ _]; discriminate |].
    match goal with
    | |- context [if ?b then _ else _] => destruct b
    end; [intros [= <- _ _]; discriminate | discriminate].
Qed.

Lemma downloadImpl_forever (time_Parse : string -> option Time.t)
    (NewRequest_ok : string -> bool) (Int63n : Z -> Z) script :
  forall dc w canResume out e,
    DownloadOptions.MaxRetry (opts dc) = 0 ->
    downloadImpl time_Parse NewRequest_ok Int63n script dc w canResume
    = Some out ->
    err out = Some e ->
    retried e = false /\ forall n, e <> MaxRetriesExceeded n.
Proof.
  induction script as [| a script IH]; intros dc w canResume out e Hmax;
    cbn [downloadImpl];
    assert (Hnot : forall dc', DownloadOptions.MaxRetry (opts dc') = 0 ->
                               maxRetriesReached dc' = false)
      by (intros dc' H0; unfold maxRetriesReached; rewrite H0; reflexivity);
    rewrite (Hnot dc Hmax).
  - destruct (negb (NewRequest_ok (remoteURL dc))); [| discriminate].
    intros [= <-] [= <-]. split; [reflexivity | discriminate].
  - destruct (negb (NewRequest_ok (remoteURL dc))).
    { intros [= <-] [= <-]. split; [reflexivity | discriminate]. }
    pose proof (DownloadFacts.attempt_frame time_Parse a dc w canResume) as Hframe.
    destruct (attempt time_Parse a dc w canResume)
      as [e' dc' w' | e' dc' w' cr' | dc' w'] eqn:Hstep;
      destruct Hframe as [[Hc [Hm Hu]] _].
    + intros [= <-] [= <-].
      split.
      * eapply DownloadFacts.attempt_fatal_kind. exact Hstep.
      * eapply attempt_fatal_not_exhausted. exact Hstep.
    + unfold fnRetryOrErr.
      rewrite Hnot by (cbn; congruence).
      intros Hrun Herr. eapply IH; [| exact Hrun | exact Herr].
      cbn. congruence.
    + intros [= <-] H. discriminate H.
Qed.

(** With [MaxRetry = 0] the engine retries for ever: whenever
    [DownloadToFile] returns an error, it is neither the failure of a
    request nor an error of the copy of the body, and never "max
    retries exceeded". *)
Theorem unbounded_retry_never_returns_a_retried_error
    (time_Parse : string -> option Time.t) (NewRequest_ok : string -> bool)
    (Int63n : Z -> Z) script faults disk0 url localPath options r e :
  DownloadOptions.MaxRetry options = 0 ->
  DownloadToFile time_Parse NewRequest_ok Int63n script faults disk0
    url localPath options = Some r ->
  failure r = Some e ->
  retried e = false /\ forall n, e <> MaxRetriesExceeded n.
Proof.
  intros Hmax. unfold DownloadToFile.
  destruct (createFails faults).
  { intros [= <-] [= <-]. split; [reflexivity | discriminate]. }
  destruct (downloadImpl _ _ _ script _ _ false) as [out |] eqn:Hrun;
    [| discriminate].
  destruct (err out) as [e' |] eqn:Herr.
  { intros [= <-] [= <-].
    eapply downloadImpl_forever; [| exact Hrun | exact Herr]. exact Hmax. }
  destruct (closeFails faults).
  { intros [= <-] [= <-]. split; [reflexivity | discriminate]. }
  destruct (moveFails faults).
  { intros [= <-] [= <-]. split; [reflexivity | discriminate]. }
  destruct (setTimeFails faults); intros [= <-] H; [| discriminate H].
  injection H as <-. split; [reflexivity | discriminate].
Qed.

Lemma unbounded_retry_never_returns_a_retried_error_witness :
  retried (ContentLength 200 100) = false
  /\ forall n, ContentLength 200 100 <> MaxRetriesExceeded n.
Proof.
  apply (unbounded_retry_never_returns_a_retried_error
           neverParses anyURL noJitter
           [noFaults DoFails;
            noFaults (Responds (answer 200 (contentLength "100") 100))]
           quiet emptyDisk "u" "p" (DownloadOptions.mk 200 0 0)
           (mkReturned
              (DownloadResults.mk 200 0 0 1)
              (Some (ContentLength 200 100))
              (writeAt emptyDisk "p.tmp" (Some (mkFileEntry [] (now quiet))))
              (mkWorld (mkFile [] 0) [mkRequest None; mkRequest None]
                       [1000000000]))).
  - reflexivity.
  - reflexivity.
  - reflexivity.
Defined.

(** ** Requests, pauses and the retry count *)

Lemma downloadImpl_accounts (time_Parse : string -> option Time.t)
    (NewRequest_ok : string -> bool) (Int63n : Z -> Z) script :
  forall dc w canResume out,
    maxRetriesReached dc = false ->
    NewRequest_ok (remoteURL dc) = true ->
    0 <= curRetry dc ->
    curRetry dc + Z.of_nat (List.length script) < 2 ^ 64 ->
    downloadImpl time_Parse NewRequest_ok Int63n script dc w canResume
    = Some out ->
    Z.of_nat (List.length (requests (world out)))
    = Z.of_nat (List.length (requests w))
      + (Z.of_nat (List.length (sleeps (world out)))
         - Z.of_nat (List.length (sleeps w))) + 1
    /\ curRetry (download.dc out)
       = curRetry dc
         + (Z.of_nat (List.length (sleeps (world out)))
            - Z.of_nat (List.length (sleeps w)))
         + match err out with
           | Some e => if retried e then 1 else 0
           | None => 0
           end.
Proof.
  change (2 ^ 64) with 18446744073709551616.
  induction script as [| a script IH];
    intros dc w canResume out Hnot Hok Hcur Hlen; cbn [downloadImpl];
    rewrite Hnot, Hok; cbn [negb]; [discriminate |].
  cbn [List.length] in Hlen. rewrite Nat2Z.inj_succ in Hlen.
  pose proof (DownloadFacts.attempt_frame time_Parse a dc w canResume) as Hframe.
  destruct (attempt time_Parse a dc w canResume)
    as [e dc' w' | e dc' w' cr' | dc' w'] eqn:Hstep;
    destruct Hframe as [[Hc [Hm Hu]] [Hs Hr]].
  - intros [= <-]. cbn [world download.dc err].
    rewrite (DownloadFacts.attempt_fatal_kind _ _ _ _ _ _ _ _ Hstep), Hs. lia.
  - unfold fnRetryOrErr.
    rewrite (DownloadFacts.uint64_small (curRetry dc' + 1)) by lia.
    destruct (maxRetriesReached (setCurRetry dc' (curRetry dc' + 1)))
      eqn:Hreached.
    + intros [= <-]. cbn [world download.dc err curRetry setCurRetry].
      rewrite (DownloadFacts.attempt_retry_kind _ _ _ _ _ _ _ _ _ Hstep), Hs.
      lia.
    + intros Hrun.
      apply IH in Hrun;
        [| exact Hreached | cbn; congruence | cbn; lia | cbn; lia].
      cbn [requests sleeps curRetry setCurRetry] in Hrun.
      rewrite length_app in Hrun. cbn [List.length] in Hrun.
      rewrite Hs in Hrun. lia.
  - intros [= <-]. cbn [world download.dc err]. rewrite Hs. lia.
Qed.

(** Once the temporary file is created and the URL is accepted, every
    pause is followed by one more request, so that there is one more
    request than pauses; and the [Retries] of the results count the
    pauses, plus one when the error returned is that of a request or of
    a copy that found the retry budget used up.  On success, [Retries]
    is the number of requests minus one. *)
Theorem retries_count_the_pauses
    (time_Parse : string -> option Time.t) (NewRequest_ok : string -> bool)
    (Int63n : Z -> Z) script faults disk0 url localPath options r :
  createFails faults = false ->
  NewRequest_ok url = true ->
  Z.of_nat (List.length script) < 2 ^ 64 ->
  DownloadToFile time_Parse NewRequest_ok Int63n script faults disk0
    url localPath options = Some r ->
  List.length (requests (trace r)) = S (List.length (sleeps (trace r)))
  /\ DownloadResults.Retries (res r)
     = Z.of_nat (List.length (sleeps (trace r)))
       + match failure r with
         | Some e => if retried e then 1 else 0
         | None => 0
         end.
Proof.
  intros Hcreate Hok Hlen. unfold DownloadToFile. rewrite Hcreate.
  destruct (downloadImpl _ _ _ script _ _ false) as [out |] eqn:Hrun;
    [| discriminate].
  apply downloadImpl_accounts in Hrun;
    [| unfold maxRetriesReached; cbn;
       destruct (0 <? DownloadOptions.MaxRetry options) eqn:H0;
       [apply Z.ltb_lt in H0; cbn; apply Z.leb_gt; lia | reflexivity]
     | exact Hok | cbn; lia | cbn; lia].
  cbn [requests sleeps curRetry List.length Z.of_nat] in Hrun.
  destruct Hrun as [Hreq Hret].
  destruct (err out) as [e |] eqn:Herr.
  { intros [= <-]. cbn [trace res failure results DownloadResults.Retries].
    split; lia. }
  assert (Hres : forall e', retried e' = false ->
            List.length (requests (world out))
            = S (List.length (sleeps (world out)))
            /\ DownloadResults.Retries (results (download.dc out))
               = Z.of_nat (List.length (sleeps (world out)))
                 + (if retried e' then 1 else 0)).
  { intros e' ->. cbn [results DownloadResults.Retries]. split; lia. }
  destruct (closeFails faults); [intros [= <-]; apply (Hres CloseFile eq_refl) |].
  destruct (moveFails faults); [intros [= <-]; apply (Hres Move eq_refl) |].
  destruct (setTimeFails faults); intros [= <-];
    [apply (Hres SetTime eq_refl) |].
  cbn [trace res failure results DownloadResults.Retries]. split; lia.
Qed.

Lemma retries_count_the_pauses_witness :
  exists r,
    DownloadToFile neverParses anyURL noJitter resumedDownload quiet emptyDisk
      "u" "p" (DownloadOptions.mk 9 0 3)
    = Some r
    /\ List.length (requests (trace r)) = S (List.length (sleeps (trace r)))
    /\ DownloadResults.Retries (res r)
       = Z.of_nat (List.length (sleeps (trace r)))
         + match failure r with
           | Some e => if retried e then 1 else 0
           | None => 0
           end.
Proof.
  eexists. split; [reflexivity |].
  apply (retries_count_the_pauses neverParses anyURL noJitter
           resumedDownload quiet emptyDisk "u" "p" (DownloadOptions.mk 9 0 3)).
  - reflexivity.
  - reflexivity.
  - reflexivity.
  - reflexivity.
Defined.

(** ** The [Range] header *)

Lemma attempt_request (time_Parse : string -> option Time.t) a dc w canResume :
  match attempt time_Parse a dc w canResume with
  | Fatal _ _ w' => requests w' = requests w ++ [requestOf dc canResume]
  | Retry _ _ w' _ => requests w' = requests w ++ [requestOf dc canResume]
  | Done _ w' => requests w' = requests w ++ [requestOf dc canResume]
  end.
Proof.
  unfold attempt. fold (requestOf dc canResume).
  destruct (roundTrip a) as [| resp]; [reflexivity |].
  set (cr := if negb canResume then parseCanResume (Hdr resp) else canResume).
  set (dropped := negb cr && (0 <? bytesRead dc)).
  destruct (dropped && seekFails a); [reflexivity |].
  destruct (dropped && truncateFails a); [reflexivity |].
  set (w1 := if dropped then setFile _ _ else _).
  assert (Hw1 : requests w1 = requests w ++ [requestOf dc canResume])
    by (unfold w1; destruct dropped; reflexivity).
  destruct (checkContentLength _ _ _) as [e | dc2]; [exact Hw1 |].
  destruct (checkLastModified _ _) as [e | dc3]; [exact Hw1 |].
  destruct (Copy (f w1) resp (writeFailsAfter a)) as [[file n] cerr].
  destruct cerr; [exact Hw1 |].
  destruct (BodyCloseFails resp); [exact Hw1 |].
  match goal with
  | |- context [if ?b then _ else _] => destruct b
  end; exact Hw1.
Qed.

Lemma attempt_canResume (time_Parse : string -> option Time.t)
    a dc w canResume e dc' w' canResume' :
  attempt time_Parse a dc w canResume = Retry e dc' w' canResume' ->
  canResume' = match roundTrip a with
               | DoFails => canResume
               | Responds resp => canResume || parseCanResume (Hdr resp)
               end.
Proof.
  unfold attempt.
  destruct (roundTrip a) as [| resp]; [intros [= _ _ _ <-]; reflexivity |].
  set (cr := if negb canResume then parseCanResume (Hdr resp) else canResume).
  assert (Hcr : cr = canResume || parseCanResume (Hdr resp))
    by (unfold cr; destruct canResume; reflexivity).
  set (dropped := negb cr && (0 <? bytesRead dc)).
  destruct (dropped && seekFails a); [discriminate |].
  destruct (dropped && truncateFails a); [discriminate |].
  destruct (checkContentLength _ _ _) as [? | dc2]; [discriminate |].
  destruct (checkLastModified _ _) as [? | dc3]; [discriminate |].
  destruct (Copy _ resp (writeFailsAfter a)) as [[file n] [ce |]].
  - intros [= _ _ _ <-]. exact Hcr.
  - destruct (BodyCloseFails resp); [discriminate |].
    match goal with
    | |- context [if ?b then _ else _] => destruct b
    end; discriminate.
Qed.

Lemma downloadImpl_no_range (time_Parse : string -> option Time.t)
    (NewRequest_ok : string -> bool) (Int63n : Z -> Z) script :
  neverAdvertisesRanges script ->
  forall dc w out,
    Forall (fun q => Range q = None) (requests w) ->
    downloadImpl time_Parse NewRequest_ok Int63n script dc w false
    = Some out ->
    Forall (fun q => Range q = None) (requests (world out)).
Proof.
  induction 1 as [| a script Ha _ IH]; intros dc w out Hw; cbn [downloadImpl].
  - destruct (maxRetriesReached dc); [intros [= <-]; exact Hw |].
    destruct (negb (NewRequest_ok (remoteURL dc)));
      [intros [= <-]; exact Hw | discriminate].
  - destruct (maxRetriesReached dc); [intros [= <-]; exact Hw |].
    destruct (negb (NewRequest_ok (remoteURL dc)));
      [intros [= <-]; exact Hw |].
    pose proof (attempt_request time_Parse a dc w false) as Hreq.
    assert (Hsent : forall w',
               requests w' = requests w ++ [requestOf dc false] ->
               Forall (fun q => Range q = None) (requests w')).
    { intros w' ->. apply Forall_app. split; [exact Hw |].
      constructor; [reflexivity | constructor]. }
    destruct (attempt time_Parse a dc w false)
      as [e dc' w' | e dc' w' cr' | dc' w'] eqn:Hstep.
    + intros [= <-]. apply Hsent. exact Hreq.
    + apply attempt_canResume in Hstep.
      assert (Hcr : cr' = false).
      { rewrite Hstep. destruct (roundTrip a); [reflexivity |].
        rewrite Ha. reflexivity. }
      clear Hstep. subst cr'. unfold fnRetryOrErr.
      destruct (maxRetriesReached _); [intros [= <-]; apply Hsent; exact Hreq |].
      apply IH. cbn [requests]. apply Hsent. exact Hreq.
    + intros [= <-]. apply Hsent. exact Hreq.
Qed.

(** The engine never asks for a range from a server that has not
    advertised it: when no answer carries [Accept-Ranges: bytes], no
    request of the download carries a [Range] header, however many
    times it is retried. *)
Theorem no_range_request_without_accept_ranges
    (time_Parse : string -> option Time.t) (NewRequest_ok : string -> bool)
    (Int63n : Z -> Z) script faults disk0 url localPath options r :
  neverAdvertisesRanges script ->
  DownloadToFile time_Parse NewRequest_ok Int63n script faults disk0
    url localPath options = Some r ->
  Forall (fun q => Range q = None) (requests (trace r)).
Proof.
  intros Hnever. unfold DownloadToFile.
  destruct (createFails faults); [intros [= <-]; constructor |].
  destruct (downloadImpl _ _ _ script _ _ false) as [out |] eqn:Hrun;
    [| discriminate].
  apply (downloadImpl_no_range _ _ _ script Hnever) in Hrun; [| constructor].
  destruct (err out); [intros [= <-]; exact Hrun |].
  destruct (closeFails faults); [intros [= <-]; exact Hrun |].
  destruct (moveFails faults); [intros [= <-]; exact Hrun |].
  destruct (setTimeFails faults); intros [= <-]; exact Hrun.
Qed.

Lemma no_range_request_without_accept_ranges_witness :
  exists r,
    DownloadToFile neverParses anyURL noJitter
      [mkAttempt (Responds (mkResponse 200 (contentLength "9") (bytes 4) true false))
                 false false None;
       noFaults (Responds (answer 200 (contentLength "9") 9))]
      quiet emptyDisk "u" "p" (DownloadOptions.mk 9 0 0)
    = Some r
    /\ Forall (fun q => Range q = None) (requests (trace r)).
Proof.
  eexists. split; [reflexivity |].
  apply (no_range_request_without_accept_ranges neverParses anyURL noJitter
           [mkAttempt (Responds (mkResponse 200 (contentLength "9") (bytes 4)
                                            true false))
                      false false None;
            noFaults (Responds (answer 200 (contentLength "9") 9))]
           quiet emptyDisk "u" "p" (DownloadOptions.mk 9 0 0)).
  - repeat constructor.
  - reflexivity.
Defined.

(** ** The bytes of the published file *)

Lemma attempt_data (time_Parse : string -> option Time.t) a resp dc w canResume :
  consistent dc w ->
  roundTrip a = Responds resp ->
  let kept := if canResume || parseCanResume (Hdr resp)
              then data (f w) else [] in
  match attempt time_Parse a dc w canResume with
  | Fatal _ _ _ => True
  | Retry _ _ w' _ => data (f w') = kept ++ stored a
  | Done _ w' => data (f w') = kept ++ Body resp /\ stored a = Body resp
  end.
Proof.
  intros [Hoff Hread] Hrt kept. unfold attempt, stored. rewrite Hrt.
  set (cr := if negb canResume then parseCanResume (Hdr resp) else canResume).
  assert (Hcr : cr = canResume || parseCanResume (Hdr resp))
    by (unfold cr; destruct canResume; reflexivity).
  set (dropped := negb cr && (0 <? bytesRead dc)).
  destruct (dropped && seekFails a); [exact I |].
  destruct (dropped && truncateFails a); [exact I |].
  set (w1 := if dropped then setFile _ _ else _).
  assert (H1 : offset (f w1) = List.length (data (f w1))
               /\ data (f w1) = kept).
  { unfold w1, kept, dropped. rewrite <- Hcr. destruct cr; cbn.
    - split; [exact Hoff | reflexivity].
    - destruct (Z.ltb_spec 0 (bytesRead dc)); cbn.
      + split; reflexivity.
      + split; [exact Hoff |].
        destruct (data (f w)); [reflexivity |].
        cbn [List.length] in Hread. lia. }
  destruct H1 as [Hoff1 Hdata1].
  destruct (checkContentLength _ _ _) as [e | dc2]; [exact I |].
  destruct (checkLastModified _ _) as [e | dc3]; [exact I |].
  assert (Hfull : forall bs,
             data (f (setFile w1 (Write (f w1) bs))) = kept ++ bs).
  { intros bs. cbn [setFile f].
    rewrite (DownloadFacts.Write_at_end _ _ Hoff1).
    cbn [data]. rewrite Hdata1. reflexivity. }
  unfold Copy.
  destruct (writeFailsAfter a) as [k |].
  - destruct (Nat.ltb_spec k (List.length (Body resp))) as [Hk | Hk].
    + apply Hfull.
    + rewrite (firstn_all2 _ Hk).
      destruct (BodyReadFails resp); [apply Hfull |].
      destruct (BodyCloseFails resp); [exact I |].
      match goal with
      | |- context [if ?b then _ else _] => destruct b
      end; [exact I | split; [apply Hfull | reflexivity]].
  - destruct (BodyReadFails resp); [apply Hfull |].
    destruct (BodyCloseFails resp); [exact I |].
    match goal with
    | |- context [if ?b then _ else _] => destruct b
    end; [exact I | split; [apply Hfull | reflexivity]].
Qed.

Lemma attempt_data_no_answer (time_Parse : string -> option Time.t)
    a dc w canResume e dc' w' canResume' :
  roundTrip a = DoFails ->
  attempt time_Parse a dc w canResume = Retry e dc' w' canResume' ->
  data (f w') = data (f w).
Proof.
  intros Hrt. unfold attempt. rewrite Hrt. intros [= _ _ <- _]. reflexivity.
Qed.

Lemma published (time_Parse : string -> option Time.t)
    (NewRequest_ok : string -> bool) (Int63n : Z -> Z)
    script faults disk0 url localPath options r :
  DownloadToFile time_Parse NewRequest_ok Int63n script faults disk0
    url localPath options = Some r ->
  failure r = None ->
  exists out entry,
    downloadImpl time_Parse NewRequest_ok Int63n script
      (mkContext url options 0 0) (mkWorld (mkFile [] 0) [] []) false
    = Some out
    /\ err out = None
    /\ trace r = world out
    /\ res r = results (download.dc out)
    /\ disk r localPath = Some entry
    /\ content entry = data (f (world out)).
Proof.
  unfold DownloadToFile.
  destruct (createFails faults); [intros [= <-]; discriminate |].
  destruct (downloadImpl _ _ _ script _ _ false) as [out |] eqn:Hrun;
    [| discriminate].
  destruct (err out) as [e |] eqn:Herr; [intros [= <-]; discriminate |].
  destruct (closeFails faults); [intros [= <-]; discriminate |].
  destruct (moveFails faults); [intros [= <-]; discriminate |].
  destruct (setTimeFails faults); [intros [= <-]; discriminate |].
  intros [= <-] _. cbn [disk res trace].
  pose proof (DownloadFacts.tmpPath_differs localPath) as Hne.
  unfold modifyFileTime, ReplaceFile, writeAt.
  rewrite Hne, !String.eqb_refl.
  destruct (Time.IsZero _).
  - exists out. eexists. rewrite Hne, !String.eqb_refl.
    split; [reflexivity |]. split; [exact Herr |].
    repeat split; reflexivity.
  - exists out. eexists. rewrite !String.eqb_refl.
    split; [reflexivity |]. split; [exact Herr |].
    repeat split; reflexivity.
Qed.

Lemma downloadImpl_resumes (time_Parse : string -> option Time.t)
    (NewRequest_ok : string -> bool) (Int63n : Z -> Z) script :
  forall dc w canResume out,
    consistent dc w ->
    Z.of_nat (List.length (data (f w))) + scriptBytes script < 2 ^ 63 ->
    canResume = true
    \/ (data (f w) = [] /\ firstAnswerAdvertisesRanges script) ->
    downloadImpl time_Parse NewRequest_ok Int63n script dc w canResume
    = Some out ->
    err out = None ->
    exists k,
      List.length (requests (world out)) = (List.length (requests w) + k)%nat
      /\ data (f (world out))
         = data (f w) ++ List.concat (map stored (firstn k script)).
Proof.
  induction script as [| a script IH];
    intros dc w canResume out Hcons Hbound Hmode; cbn [downloadImpl].
  - destruct (maxRetriesReached dc); [intros [= <-]; discriminate |].
    destruct (negb (NewRequest_ok (remoteURL dc)));
      [intros [= <-]; discriminate | discriminate].
  - destruct (maxRetriesReached dc); [intros [= <-]; discriminate |].
    destruct (negb (NewRequest_ok (remoteURL dc)));
      [intros [= <-]; discriminate |].
    cbn [scriptBytes fold_right] in Hbound.
    fold (scriptBytes script) in Hbound.
    pose proof (DownloadFacts.scriptBytes_nonneg script) as Hrest.
    assert (Hone : Z.of_nat (List.length (data (f w))) + bodyBytes a < 2 ^ 63)
      by lia.
    pose proof (DownloadFacts.attempt_bytes time_Parse a dc w canResume
                  Hcons Hone) as Hbytes.
    pose proof (attempt_request time_Parse a dc w canResume) as Hreq.
    assert (Hkept : forall p,
               (if canResume || p then data (f w) else []) = data (f w)).
    { intros p. destruct Hmode as [-> | [-> _]]; [reflexivity |].
      destruct (canResume || p); reflexivity. }
    assert (Hnext : forall e dc' w' canResume',
               attempt time_Parse a dc w canResume = Retry e dc' w' canResume' ->
               data (f w') = data (f w) ++ stored a
               /\ (canResume' = true
                   \/ (data (f w') = []
                       /\ firstAnswerAdvertisesRanges script))).
    { intros e dc' w' cr' Hstep.
      pose proof (attempt_canResume _ _ _ _ _ _ _ _ _ Hstep) as Hcr.
      destruct (roundTrip a) as [| resp] eqn:Hrt.
      - pose proof (attempt_data_no_answer _ _ _ _ _ _ _ _ _ Hrt Hstep) as Hd.
        unfold stored. rewrite Hrt, app_nil_r. split; [exact Hd |].
        destruct Hmode as [-> | [Hempty Hfirst]]; [left; exact Hcr |].
        right. split; [rewrite Hd; exact Hempty |].
        cbn [firstAnswerAdvertisesRanges] in Hfirst.
        rewrite Hrt in Hfirst. exact Hfirst.
      - pose proof (attempt_data time_Parse a resp dc w canResume Hcons Hrt)
          as Hd.
        cbv zeta in Hd. rewrite Hstep, Hkept in Hd. split; [exact Hd |].
        left. rewrite Hcr.
        destruct Hmode as [-> | [_ Hfirst]]; [reflexivity |].
        cbn [firstAnswerAdvertisesRanges] in Hfirst.
        rewrite Hrt in Hfirst. rewrite Hfirst. apply orb_true_r. }
    assert (Hlast : forall dc' w',
               attempt time_Parse a dc w canResume = Done dc' w' ->
               data (f w') = data (f w) ++ stored a).
    { intros dc' w' Hstep.
      destruct (roundTrip a) as [| resp] eqn:Hrt.
      - unfold attempt in Hstep. rewrite Hrt in Hstep. discriminate Hstep.
      - pose proof (attempt_data time_Parse a resp dc w canResume Hcons Hrt)
          as Hd.
        cbv zeta in Hd. rewrite Hstep, Hkept in Hd.
        destruct Hd as [Hd ->]. exact Hd. }
    destruct (attempt time_Parse a dc w canResume)
      as [e dc' w' | e dc' w' cr' | dc' w'] eqn:Hstep.
    + intros [= <-]. discriminate.
    + destruct (Hnext _ _ _ _ eq_refl) as [Hd Hmode'].
      destruct Hbytes as (Hcons' & _ & Hlen).
      unfold fnRetryOrErr.
      destruct (maxRetriesReached _); [intros [= <-]; discriminate |].
      intros Hrun Herr.
      apply IH in Hrun;
        [| exact Hcons' | cbn [f]; lia | exact Hmode' | exact Herr].
      destruct Hrun as (k & Hk & Hdata). cbn [requests f] in Hk, Hdata.
      exists (S k). split.
      * rewrite Hk, Hreq, length_app. cbn [List.length]. lia.
      * rewrite Hdata, Hd. cbn [firstn map List.concat].
        rewrite app_assoc. reflexivity.
    + intros [= <-] _. cbn [world]. exists 1%nat. split.
      * rewrite Hreq, length_app. reflexivity.
      * rewrite (Hlast _ _ eq_refl). cbn [firstn map List.concat].
        rewrite app_nil_r. reflexivity.
Qed.

(** Once the first answer of the server carries [Accept-Ranges:
    bytes], nothing that reached the file is ever dropped: the file a
    successful download publishes is what the successive attempts
    stored, in the order of the requests, also when later answers
    lack the header. *)
Theorem resumed_download_joins_what_each_attempt_stored
    (time_Parse : string -> option Time.t) (NewRequest_ok : string -> bool)
    (Int63n : Z -> Z) script faults disk0 url localPath options r :
  firstAnswerAdvertisesRanges script ->
  scriptBytes script < 2 ^ 63 ->
  DownloadToFile time_Parse NewRequest_ok Int63n script faults disk0
    url localPath options = Some r ->
  failure r = None ->
  exists entry,
    disk r localPath = Some entry
    /\ content entry
       = List.concat (map stored
                   (firstn (List.length (requests (trace r))) script)).
Proof.
  intros Hfirst Hbound Hcall Hfail.
  destruct (published _ _ _ _ _ _ _ _ _ _ Hcall Hfail)
    as (out & entry & Hrun & Herr & Htrace & _ & Hdisk & Hcontent).
  apply downloadImpl_resumes in Hrun;
    [| split; reflexivity | exact Hbound
     | right; split; [reflexivity | exact Hfirst] | exact Herr].
  destruct Hrun as (k & Hk & Hdata). cbn [requests f data] in Hk, Hdata.
  exists entry. split; [exact Hdisk |].
  rewrite Hcontent, Htrace, Hk, Hdata. reflexivity.
Qed.

Lemma resumed_download_joins_what_each_attempt_stored_witness :
  exists r,
    DownloadToFile neverParses anyURL noJitter resumedDownload quiet emptyDisk
      "u" "p" (DownloadOptions.mk 9 0 3)
    = Some r
    /\ exists entry,
         disk r "p"%string = Some entry
         /\ content entry
            = List.concat (map stored
                        (firstn (List.length (requests (trace r)))
                           resumedDownload)).
Proof.
  eexists. split; [reflexivity |].
  apply (resumed_download_joins_what_each_attempt_stored neverParses anyURL
           noJitter resumedDownload quiet emptyDisk "u" "p"
           (DownloadOptions.mk 9 0 3)).
  - reflexivity.
  - reflexivity.
  - reflexivity.
  - reflexivity.
Defined.

Lemma downloadImpl_restarts (time_Parse : string -> option Time.t)
    (NewRequest_ok : string -> bool) (Int63n : Z -> Z) script :
  neverAdvertisesRanges script ->
  forall dc w out,
    consistent dc w ->
    Z.of_nat (List.length (data (f w))) + scriptBytes script < 2 ^ 63 ->
    downloadImpl time_Parse NewRequest_ok Int63n script dc w false
    = Some out ->
    err out = None ->
    exists k a,
      List.length (requests (world out))
      = (List.length (requests w) + S k)%nat
      /\ nth_error script k = Some a
      /\ data (f (world out)) = bodyOf a.
Proof.
  induction 1 as [| a script Ha _ IH];
    intros dc w out Hcons Hbound; cbn [downloadImpl].
  - destruct (maxRetriesReached dc); [intros [= <-]; discriminate |].
    destruct (negb (NewRequest_ok (remoteURL dc)));
      [intros [= <-]; discriminate | discriminate].
  - destruct (maxRetriesReached dc); [intros [= <-]; discriminate |].
    destruct (negb (NewRequest_ok (remoteURL dc)));
      [intros [= <-]; discriminate |].
    cbn [scriptBytes fold_right] in Hbound.
    fold (scriptBytes script) in Hbound.
    pose proof (DownloadFacts.scriptBytes_nonneg script) as Hrest.
    assert (Hone : Z.of_nat (List.length (data (f w))) + bodyBytes a < 2 ^ 63)
      by lia.
    pose proof (DownloadFacts.attempt_bytes time_Parse a dc w false
                  Hcons Hone) as Hbytes.
    pose proof (attempt_request time_Parse a dc w false) as Hreq.
    destruct (attempt time_Parse a dc w false)
      as [e dc' w' | e dc' w' cr' | dc' w'] eqn:Hstep.
    + intros [= <-]. discriminate.
    + pose proof (attempt_canResume _ _ _ _ _ _ _ _ _ Hstep) as Hcr.
      assert (Hfalse : cr' = false).
      { rewrite Hcr. destruct (roundTrip a); [reflexivity |].
        rewrite Ha. reflexivity. }
      clear Hcr Hstep. subst cr'.
      destruct Hbytes as (Hcons' & _ & Hlen).
      unfold fnRetryOrErr.
      destruct (maxRetriesReached _); [intros [= <-]; discriminate |].
      intros Hrun Herr.
      apply IH in Hrun; [| exact Hcons' | cbn [f]; lia | exact Herr].
      destruct Hrun as (k & a' & Hk & Hnth & Hdata).
      cbn [requests] in Hk.
      exists (S k), a'. split; [| split; [exact Hnth | exact Hdata]].
      rewrite Hk, Hreq, length_app. cbn [List.length]. lia.
    + intros [= <-] _. cbn [world]. exists 0%nat, a.
      split; [rewrite Hreq, length_app; reflexivity |].
      split; [reflexivity |].
      destruct (roundTrip a) as [| resp] eqn:Hrt.
      * unfold attempt in Hstep. rewrite Hrt in Hstep. discriminate Hstep.
      * pose proof (attempt_data time_Parse a resp dc w false Hcons Hrt)
          as Hd.
        cbv zeta in Hd. rewrite Hstep, Ha in Hd. destruct Hd as [Hd _].
        unfold bodyOf. rewrite Hrt. exact Hd.
Qed.

(** Without [Accept-Ranges: bytes] every attempt starts the file
    again: the file a successful download publishes is the body of
    the answer to its last request, and nothing of the attempts
    before. *)
Theorem download_without_ranges_keeps_the_last_answer_only
    (time_Parse : string -> option Time.t) (NewRequest_ok : string -> bool)
    (Int63n : Z -> Z) script faults disk0 url localPath options r :
  neverAdvertisesRanges script ->
  scriptBytes script < 2 ^ 63 ->
  DownloadToFile time_Parse NewRequest_ok Int63n script faults disk0
    url localPath options = Some r ->
  failure r = None ->
  exists a entry,
    nth_error script (List.length (requests (trace r)) - 1) = Some a
    /\ disk r localPath = Some entry
    /\ content entry = bodyOf a.
Proof.
  intros Hnever Hbound Hcall Hfail.
  destruct (published _ _ _ _ _ _ _ _ _ _ Hcall Hfail)
    as (out & entry & Hrun & Herr & Htrace & _ & Hdisk & Hcontent).
  apply (downloadImpl_restarts _ _ _ _ Hnever) in Hrun;
    [| split; reflexivity | exact Hbound | exact Herr].
  destruct Hrun as (k & a & Hk & Hnth & Hdata). cbn [requests] in Hk.
  exists a, entry. rewrite Htrace, Hk, Hcontent.
  cbn [List.length Nat.add Nat.sub]. rewrite Nat.sub_0_r.
  split; [exact Hnth |]. split; [exact Hdisk | exact Hdata].
Qed.

Lemma download_without_ranges_keeps_the_last_answer_only_witness :
  exists r,
    DownloadToFile neverParses anyURL noJitter restartedDownload quiet
      emptyDisk "u" "p" (DownloadOptions.mk 9 0 3)
    = Some r
    /\ exists a entry,
         nth_error restartedDownload
           (List.length (requests (trace r)) - 1) = Some a
         /\ disk r "p"%string = Some entry
         /\ content entry = bodyOf a.
Proof.
  eexists. split; [reflexivity |].
  apply (download_without_ranges_keeps_the_last_answer_only neverParses
           anyURL noJitter restartedDownload quiet emptyDisk "u" "p"
           (DownloadOptions.mk 9 0 3)).
  - repeat constructor.
  - reflexivity.
  - reflexivity.
  - reflexivity.
Defined.

(** ** [ActualSize] and the file *)

Lemma attempt_sized (time_Parse : string -> option Time.t) a dc w canResume :
  consistent dc w ->
  Z.of_nat (List.length (data (f w))) + bodyBytes a < 2 ^ 63 ->
  match attempt time_Parse a dc w canResume with
  | Fatal _ dc' w' | Retry _ dc' w' _ | Done dc' w' =>
      bytesRead dc' = Z.of_nat (List.length (data (f w')))
  end.
Proof.
  intros [Hoff Hread] Hbound.
  change (2 ^ 63) with 9223372036854775808 in Hbound.
  unfold attempt, bodyBytes in *.
  destruct (roundTrip a) as [| resp]; [exact Hread |].
  set (cr := if negb canResume then parseCanResume (Hdr resp) else canResume).
  set (dropped := negb cr && (0 <? bytesRead dc)).
  destruct (dropped && seekFails a); [exact Hread |].
  destruct (dropped && truncateFails a); [exact Hread |].
  set (w1 := if dropped then setFile _ _ else _).
  set (dc1 := if dropped then setBytesRead dc 0 else dc).
  assert (H1 : consistent dc1 w1
               /\ Z.of_nat (List.length (data (f w1)))
                  <= Z.of_nat (List.length (data (f w)))).
  { unfold dc1, w1. destruct dropped; cbn.
    - repeat split. lia.
    - repeat split; try assumption. lia. }
  destruct H1 as [[Hoff1 Hread1] Hlen1].
  destruct (checkContentLength cr (parseContentLength (Hdr resp)) dc1)
    as [e | dc2] eqn:Hcl; [exact Hread1 |].
  apply DownloadFacts.checkContentLength_size in Hcl.
  destruct Hcl as [_ Hread2].
  destruct (checkLastModified (parseLastModifiedMinute time_Parse (Hdr resp)) dc2)
    as [e | dc3] eqn:Hlm; [rewrite Hread2; exact Hread1 |].
  apply DownloadFacts.checkLastModified_size in Hlm.
  destruct Hlm as [_ Hread3].
  destruct (Copy (f w1) resp (writeFailsAfter a)) as [[file n] cerr] eqn:Hcopy.
  destruct (DownloadFacts.Copy_appends _ _ _ _ _ _ Hoff1 Hcopy)
    as [_ [Hlen4 Hn]].
  assert (Hsum : int64 (bytesRead dc3 + n) = Z.of_nat (List.length (data file)))
    by (rewrite DownloadFacts.int64_small; lia).
  destruct cerr; [exact Hsum |].
  destruct (BodyCloseFails resp); [exact Hsum |].
  match goal with
  | |- context [if ?b then _ else _] => destruct b
  end; exact Hsum.
Qed.

Lemma downloadImpl_sized (time_Parse : string -> option Time.t)
    (NewRequest_ok : string -> bool) (Int63n : Z -> Z) script :
  forall dc w canResume out,
    consistent dc w ->
    Z.of_nat (List.length (data (f w))) + scriptBytes script < 2 ^ 63 ->
    downloadImpl time_Parse NewRequest_ok Int63n script dc w canResume
    = Some out ->
    bytesRead (download.dc out)
    = Z.of_nat (List.length (data (f (world out)))).
Proof.
  induction script as [| a script IH];
    intros dc w canResume out Hcons Hbound; cbn [downloadImpl].
  - destruct (maxRetriesReached dc); [intros [= <-]; apply Hcons |].
    destruct (negb (NewRequest_ok (remoteURL dc)));
      [intros [= <-]; apply Hcons | discriminate].
  - destruct (maxRetriesReached dc); [intros [= <-]; apply Hcons |].
    destruct (negb (NewRequest_ok (remoteURL dc)));
      [intros [= <-]; apply Hcons |].
    cbn [scriptBytes fold_right] in Hbound.
    fold (scriptBytes script) in Hbound.
    pose proof (DownloadFacts.scriptBytes_nonneg script) as Hrest.
    assert (Hone : Z.of_nat (List.length (data (f w))) + bodyBytes a < 2 ^ 63)
      by lia.
    pose proof (DownloadFacts.attempt_bytes time_Parse a dc w canResume
                  Hcons Hone) as Hbytes.
    pose proof (attempt_sized time_Parse a dc w canResume Hcons Hone)
      as Hsized.
    destruct (attempt time_Parse a dc w canResume)
      as [e dc' w' | e dc' w' cr' | dc' w'].
    + intros [= <-]. exact Hsized.
    + destruct Hbytes as (Hcons' & _ & Hlen).
      unfold fnRetryOrErr.
      destruct (maxRetriesReached _); [intros [= <-]; exact Hsized |].
      apply IH; [exact Hcons' | cbn [f]; lia].
    + intros [= <-]. exact Hsized.
Qed.

Lemma attempt_fatal_not_moved (time_Parse : string -> option Time.t)
    a dc w canResume e dc' w' :
  attempt time_Parse a dc w canResume = Fatal e dc' w' ->
  moved (Some e) = false.
Proof.
  unfold attempt.
  destruct (roundTrip a) as [| resp]; [discriminate |].
  set (cr := if negb canResume then parseCanResume (Hdr resp) else canResume).
  set (dropped := negb cr && (0 <? bytesRead dc)).
  destruct (dropped && seekFails a); [intros [= <- _ _]; reflexivity |].
  destruct (dropped && truncateFails a); [intros [= <- _ _]; reflexivity |].
  destruct (checkContentLength _ _ _) as [e1 | dc2] eqn:Hcl.
  { intros [= <- _ _]. revert Hcl. unfold checkContentLength.
    repeat match goal with
           | |- context [if ?b then _ else _] => destruct b
           end;
      intros [= <-]; reflexivity. }
  destruct (checkLastModified _ _) as [e2 | dc3] eqn:Hlm.
  { intros [= <- _ _]. revert Hlm. unfold checkLastModified.
    repeat match goal with
           | |- context [if ?b then _ else _] => destruct b
           end;
      intros [= <-]; reflexivity. }
  destruct (Copy _ resp (writeFailsAfter a)) as [[file n] [ce |]].
  - discriminate.
  - destruct (BodyCloseFails resp); [intros [= <- _ _]; reflexivity |].
    match goal with
    | |- context [if ?b then _ else _] => destruct b
    end; [intros [= <- _ _]; reflexivity | discriminate].
Qed.

Lemma downloadImpl_not_moved (time_Parse : string -> option Time.t)
    (NewRequest_ok : string -> bool) (Int63n : Z -> Z) script :
  forall dc w canResume out e,
    downloadImpl time_Parse NewRequest_ok Int63n script dc w canResume
    = Some out ->
    err out = Some e ->
    moved (Some e) = false.
Proof.
  induction script as [| a script IH];
    intros dc w canResume out e; cbn [downloadImpl].
  - destruct (maxRetriesReached dc); [intros [= <-] [= <-]; reflexivity |].
    destruct (negb (NewRequest_ok (remoteURL dc)));
      [intros [= <-] [= <-]; reflexivity | discriminate].
  - destruct (maxRetriesReached dc); [intros [= <-] [= <-]; reflexivity |].
    destruct (negb (NewRequest_ok (remoteURL dc)));
      [intros [= <-] [= <-]; reflexivity |].
    destruct (attempt time_Parse a dc w canResume)
      as [e' dc' w' | e' dc' w' cr' | dc' w'] eqn:Hstep.
    + intros [= <-] [= <-].
      apply (attempt_fatal_not_moved _ _ _ _ _ _ _ _ Hstep).
    + unfold fnRetryOrErr.
      destruct (maxRetriesReached _); [| apply IH].
      intros [= <-] [= <-].
      apply DownloadFacts.attempt_retry_kind in Hstep.
      destruct e'; try discriminate Hstep; reflexivity.
    + intros [= <-]. discriminate.
Qed.

(** [ActualSize] in the results is the size of the file the call
    leaves, whatever the outcome: of the file at the final path once
    it has been replaced, of the temporary file, which is not removed,
    when the call fails before. *)
Theorem actual_size_is_the_size_of_the_file_left
    (time_Parse : string -> option Time.t) (NewRequest_ok : string -> bool)
    (Int63n : Z -> Z) script faults disk0 url localPath options r :
  createFails faults = false ->
  scriptBytes script < 2 ^ 63 ->
  DownloadToFile time_Parse NewRequest_ok Int63n script faults disk0
    url localPath options = Some r ->
  exists entry,
    disk r (if moved (failure r) then localPath
            else (localPath ++ ".tmp")%string)
    = Some entry
    /\ DownloadResults.ActualSize (res r)
       = Z.of_nat (List.length (content entry)).
Proof.
  intros Hcreate Hbound. unfold DownloadToFile. rewrite Hcreate.
  destruct (downloadImpl _ _ _ script _ _ false) as [out |] eqn:Hrun;
    [| discriminate].
  pose proof (fun e => downloadImpl_not_moved _ _ _ _ _ _ _ _ e Hrun)
    as Hkind.
  apply downloadImpl_sized in Hrun; [| split; reflexivity | exact Hbound].
  pose proof (DownloadFacts.tmpPath_differs localPath) as Hne.
  assert (Htmp : forall e, moved (Some e) = false ->
            exists entry,
              writeAt disk0 (localPath ++ ".tmp")%string
                (Some (mkFileEntry (data (f (world out))) (now faults)))
                (if moved (Some e) then localPath
                 else (localPath ++ ".tmp")%string)
              = Some entry
              /\ DownloadResults.ActualSize (results (download.dc out))
                 = Z.of_nat (List.length (content entry))).
  { intros e ->. eexists. unfold writeAt. rewrite String.eqb_refl.
    split; [reflexivity | exact Hrun]. }
  destruct (err out) as [e |] eqn:Herr.
  { intros [= <-]. cbn [disk res failure]. apply Htmp, Hkind. reflexivity. }
  destruct (closeFails faults);
    [intros [= <-]; apply (Htmp CloseFile eq_refl) |].
  destruct (moveFails faults); [intros [= <-]; apply (Htmp Move eq_refl) |].
  assert (Hmoved :
            ReplaceFile
              (writeAt disk0 (localPath ++ ".tmp")%string
                 (Some (mkFileEntry (data (f (world out))) (now faults))))
              (localPath ++ ".tmp")%string localPath localPath
            = Some (mkFileEntry (data (f (world out))) (now faults))).
  { unfold ReplaceFile, writeAt. rewrite Hne, !String.eqb_refl. reflexivity. }
  destruct (setTimeFails faults); intros [= <-];
    cbn [disk res failure moved].
  - eexists. split; [exact Hmoved | exact Hrun].
  - unfold modifyFileTime. rewrite Hmoved.
    destruct (Time.IsZero _).
    + eexists. split; [exact Hmoved | exact Hrun].
    + eexists. unfold writeAt at 1. rewrite String.eqb_refl.
      split; [reflexivity | exact Hrun].
Qed.

Lemma actual_size_is_the_size_of_the_file_left_witness :
  exists r,
    DownloadToFile neverParses anyURL noJitter resumedDownload quiet emptyDisk
      "u" "p" (DownloadOptions.mk 9 0 1)
    = Some r
    /\ exists entry,
         disk r (if moved (failure r) then "p"%string else ("p" ++ ".tmp")%string)
         = Some entry
         /\ DownloadResults.ActualSize (res r)
            = Z.of_nat (List.length (content entry)).
Proof.
  eexists. split; [reflexivity |].
  apply (actual_size_is_the_size_of_the_file_left neverParses anyURL
           noJitter resumedDownload quiet emptyDisk "u" "p"
           (DownloadOptions.mk 9 0 1)).
  - reflexivity.
  - reflexivity.
  - reflexivity.
Defined.

(** ** What a call does to the disk *)

(** A call touches two paths only, the final one and the temporary
    one beside it; the file at the final path is replaced in one
    step after the download has succeeded and the temporary file has
    been closed, so every failure but that of setting the time leaves
    it as it was; and once it has been replaced the temporary file is
    gone. *)
Theorem final_path_changes_only_by_the_move
    (time_Parse : string -> option Time.t) (NewRequest_ok : string -> bool)
    (Int63n : Z -> Z) script faults disk0 url localPath options r :
  DownloadToFile time_Parse NewRequest_ok Int63n script faults disk0
    url localPath options = Some r ->
  (forall p, p <> localPath -> p <> (localPath ++ ".tmp")%string ->
             disk r p = disk0 p)
  /\ (moved (failure r) = false -> disk r localPath = disk0 localPath)
  /\ (moved (failure r) = true ->
      disk r (localPath ++ ".tmp")%string = None
      /\ exists entry,
           disk r localPath = Some entry
           /\ content entry = data (f (trace r))).
Proof.
  unfold DownloadToFile.
  pose proof (DownloadFacts.tmpPath_differs localPath) as Hne.
  destruct (createFails faults).
  { intros [= <-]. cbn [disk failure moved].
    split; [reflexivity | split; [reflexivity | discriminate]]. }
  destruct (downloadImpl _ _ _ script _ _ false) as [out |] eqn:Hrun;
    [| discriminate].
  pose proof (fun e => downloadImpl_not_moved _ _ _ _ _ _ _ _ e Hrun)
    as Hkind.
  set (entry := mkFileEntry (data (f (world out))) (now faults)).
  assert (Hfailed : forall e, moved (Some e) = false ->
            (forall p, p <> localPath -> p <> (localPath ++ ".tmp")%string ->
               writeAt disk0 (localPath ++ ".tmp")%string (Some entry) p
               = disk0 p)
            /\ (moved (Some e) = false ->
                writeAt disk0 (localPath ++ ".tmp")%string (Some entry)
                  localPath
                = disk0 localPath)
            /\ (moved (Some e) = true ->
                writeAt disk0 (localPath ++ ".tmp")%string (Some entry)
                  (localPath ++ ".tmp")%string = None
                /\ exists entry',
                     writeAt disk0 (localPath ++ ".tmp")%string (Some entry)
                       localPath = Some entry'
                     /\ content entry' = data (f (world out)))).
  { intros e He. unfold writeAt. split; [| split].
    - intros p _ Hp. apply String.eqb_neq in Hp. rewrite Hp. reflexivity.
    - intros _. rewrite Hne. reflexivity.
    - rewrite He. discriminate. }
  destruct (err out) as [e |] eqn:Herr.
  { intros [= <-]. cbn [disk failure trace]. apply Hfailed, Hkind.
    reflexivity. }
  destruct (closeFails faults);
    [intros [= <-]; apply (Hfailed CloseFile eq_refl) |].
  destruct (moveFails faults); [intros [= <-]; apply (Hfailed Move eq_refl) |].
  set (disk1 := ReplaceFile _ _ _).
  assert (Hmoved : (forall p, p <> localPath ->
                      p <> (localPath ++ ".tmp")%string -> disk1 p = disk0 p)
                   /\ disk1 (localPath ++ ".tmp")%string = None
                   /\ disk1 localPath = Some entry).
  { unfold disk1, ReplaceFile, writeAt. rewrite Hne, !String.eqb_refl.
    split; [| split; reflexivity].
    intros p Hp Htmp. apply String.eqb_neq in Hp, Htmp.
    rewrite Hp, Htmp. reflexivity. }
  destruct Hmoved as (Hother & Htmp & Hfinal).
  destruct (setTimeFails faults); intros [= <-];
    cbn [disk failure trace moved].
  - split; [exact Hother | split; [discriminate |]].
    intros _. split; [exact Htmp |].
    exists entry. split; [exact Hfinal | reflexivity].
  - unfold modifyFileTime. rewrite Hfinal.
    destruct (Time.IsZero _).
    + split; [exact Hother | split; [discriminate |]].
      intros _. split; [exact Htmp |].
      exists entry. split; [exact Hfinal | reflexivity].
    + unfold writeAt. rewrite String.eqb_refl, String.eqb_sym, Hne.
      split; [| split; [discriminate |]].
      * intros p Hp Hq. pose proof Hp as Hp'. apply String.eqb_neq in Hp'.
        rewrite Hp'. apply Hother; assumption.
      * intros _. split; [exact Htmp |].
        eexists. split; reflexivity.
Qed.

Lemma final_path_changes_only_by_the_move_witness :
  exists r,
    DownloadToFile neverParses anyURL noJitter resumedDownload quiet
      (oneFile "p" (mkFileEntry (bytes 2) 5)) "u" "p"
      (DownloadOptions.mk 9 0 1)
    = Some r
    /\ (forall p, p <> "p"%string -> p <> ("p" ++ ".tmp")%string ->
                  disk r p = oneFile "p" (mkFileEntry (bytes 2) 5) p)
    /\ (moved (failure r) = false ->
        disk r "p"%string = oneFile "p" (mkFileEntry (bytes 2) 5) "p"%string)
    /\ (moved (failure r) = true ->
        disk r ("p" ++ ".tmp")%string = None
        /\ exists entry,
             disk r "p"%string = Some entry
             /\ content entry = data (f (trace r))).
Proof.
  eexists. split; [reflexivity |].
  apply (final_path_changes_only_by_the_move neverParses anyURL noJitter
           resumedDownload quiet (oneFile "p" (mkFileEntry (bytes 2) 5))
           "u" "p" (DownloadOptions.mk 9 0 1)).
  reflexivity.
Defined.

End DownloadExtras.

(* ================================================================= *)
(** * The registry of scraper types *)

Module RegistryExtras.

Import registry.
Local Open Scope string_scope.
Local Open Scope list_scope.

Lemma last_cons (l : list string) : forall x d,
  last (x :: l) d = last l x.
Proof.
  induction l as [| y l IH]; intros x d; [reflexivity |].
  change (last (x :: y :: l) d) with (last (y :: l) d).
  rewrite !IH. reflexivity.
Qed.

Lemma last_option_wins opts : forall baseURL,
  fold_left (fun baseURL o => match o with optBaseURL v => v end) opts baseURL
  = last (map valueOf opts) baseURL.
Proof.
  induction opts as [| o opts IH]; intros baseURL; [reflexivity |].
  cbn [fold_left map]. rewrite IH, last_cons. destruct o; reflexivity.
Qed.

(** With the registrations of the program, [Create] knows the one type
    [archive.org]: any other name gives "type not found"; for
    [archive.org] the last [BaseURL] option decides, the scraper gets
    its value as base URL and no user agent, and without options, or
    when that value is empty, the error is "missing required option:
    BaseURL". *)
Theorem Create_knows_archive_org_and_takes_the_last_BaseURL :
  (forall typ opts, typ <> "archive.org" ->
     Create init typ opts = inr TypeNotFound)
  /\ (forall opts,
        Create init "archive.org" opts
        = match last (map valueOf opts) "" with
          | EmptyString => inr MissingBaseURL
          | baseURL => inl (mkArchiveDotOrg baseURL "")
          end).
Proof.
  split.
  - intros typ opts Hne. unfold Create, init, Register.
    apply String.eqb_neq in Hne. rewrite Hne. reflexivity.
  - intros opts. unfold Create, init, Register, newArchiveDotOrg.
    cbn [String.eqb Ascii.eqb Bool.eqb]. rewrite last_option_wins.
    destruct (last (map valueOf opts) ""); reflexivity.
Qed.

End RegistryExtras.
